(** * Network discovery of the Eufy RoboVac MCP server

    A shallow embedding of [src/network-discovery.ts] (class
    [NetworkDiscovery]) and the properties of its scan that the
    specification states.

    Conventions of the embedding.
    - JavaScript strings are [string]s; the strings that the scan handles
      (interface addresses, command lines, MAC addresses) are ASCII.
    - [number]s that the code uses as integers (ports, host octets) are [Z]
      or [nat].
    - [undefined] is [None].
    - The host (interfaces, platform, subprocesses, sockets and the regular
      expression engine) is a record of type [host]; every theorem
      quantifies over it.
    - [console.error] only writes diagnostics to stderr and is left out. *)

From Stdlib Require Import ZArith Ascii String List Bool Lia DecimalString DecimalNat.
From stdpp Require Import base option list strings gmap.
From Equations Require Import Equations.

Import ListNotations.
Local Open Scope string_scope.
Local Open Scope list_scope.
Local Open Scope Z_scope.

(** ** The JavaScript string and array primitives the class calls *)

Module JS.

(** [c.toLowerCase()] on one ASCII code unit. *)
Definition lower_ascii (c : ascii) : ascii :=
  let n := N_of_ascii c in
  if ((65 <=? n) && (n <=? 90))%N then ascii_of_N (n + 32) else c.

Definition upper_ascii (c : ascii) : ascii :=
  let n := N_of_ascii c in
  if ((97 <=? n) && (n <=? 122))%N then ascii_of_N (n - 32) else c.

(** [s.toLowerCase()] *)
Fixpoint toLowerCase (s : string) : string :=
  match s with
  | EmptyString => EmptyString
  | String c s' => String (lower_ascii c) (toLowerCase s')
  end.

Fixpoint toUpperCase (s : string) : string :=
  match s with
  | EmptyString => EmptyString
  | String c s' => String (upper_ascii c) (toUpperCase s')
  end.

(** [s.substring(i, j)] for [i <= j]: the code units [i .. j-1], clipped
    to the length of [s]. *)
Definition substring (i j : nat) (s : string) : string :=
  String.substring i (j - i) s.

(** [s.startsWith(p)] *)
Definition startsWith (s p : string) : bool := String.prefix p s.

(** [s.split(sep)] for a one-character separator: never empty, and a
    string without the separator is returned whole. *)
Fixpoint split (sep : ascii) (s : string) : list string :=
  match s with
  | EmptyString => [EmptyString]
  | String c s' =>
      if Ascii.eqb c sep then EmptyString :: split sep s'
      else match split sep s' with
           | piece :: rest => String c piece :: rest
           | [] => [String c EmptyString]
           end
  end.

(** [s.replace(/c/g, d)]: every occurrence of one character replaced. *)
Fixpoint replaceAll (c d : ascii) (s : string) : string :=
  match s with
  | EmptyString => EmptyString
  | String a s' => String (if Ascii.eqb a c then d else a) (replaceAll c d s')
  end.

(** A value spliced into a template literal: [undefined] prints as the
    word. *)
Definition tpl (v : option string) : string :=
  match v with Some s => s | None => "undefined" end.

(** [`${i}`] for a non-negative integer. *)
Definition show (i : nat) : string :=
  NilEmpty.string_of_uint (Nat.to_uint i).

(** [arr.includes(x)] on an array of numbers. *)
Definition includes (arr : list Z) (x : Z) : bool := existsb (Z.eqb x) arr.

(** [arr.slice(i, j)] for [0 <= i <= j]. *)
Definition slice {A} (i j : nat) (arr : list A) : list A :=
  take (j - i) (drop i arr).

(** Truthiness of an optional string: [undefined] and [""] are falsy. *)
Definition truthy (v : option string) : bool :=
  match v with
  | Some EmptyString | None => false
  | Some _ => true
  end.

(** *** [parseInt(s)] without a radix

    Leading white space is skipped, a sign is read, ["0x"] selects base
    sixteen, and the longest run of digits is the value; no digit at all
    gives [NaN], here [None].  The result is an integer; the source only
    compares it with 16 and 31, where the rounding of large values to a
    double makes no difference. *)
Definition is_space (c : ascii) : bool :=
  let n := N_of_ascii c in
  ((9 <=? n) && (n <=? 13) || (n =? 32))%N.

Fixpoint skip_space (s : string) : string :=
  match s with
  | String c s' => if is_space c then skip_space s' else s
  | EmptyString => s
  end.

Definition digit_value (c : ascii) : option Z :=
  let n := Z.of_N (N_of_ascii c) in
  if (48 <=? n) && (n <=? 57) then Some (n - 48)
  else if (97 <=? n) && (n <=? 122) then Some (n - 87)
  else if (65 <=? n) && (n <=? 90) then Some (n - 55)
  else None.

Fixpoint digits (radix : Z) (acc : option Z) (s : string) : option Z :=
  match s with
  | EmptyString => acc
  | String c s' =>
      match digit_value c with
      | Some d =>
          if d <? radix
          then digits radix (Some (radix * default 0 acc + d)) s'
          else acc
      | None => acc
      end
  end.

Definition parseInt (v : option string) : option Z :=
  let s := skip_space (tpl v) in
  let '(sign, s) :=
    match s with
    | String "-" r => (-1, r)
    | String "+" r => (1, r)
    | _ => (1, s)
    end in
  let '(radix, s) :=
    match s with
    | String "0" (String "x" r) | String "0" (String "X" r) => (16, r)
    | _ => (10, s)
    end in
  Z.mul sign <$> digits radix None s.

(** [x >= lo && x <= hi] on a possibly-[NaN] number: every comparison
    with [NaN] is false. *)
Definition between (lo hi : Z) (x : option Z) : bool :=
  match x with
  | Some n => (lo <=? n) && (n <=? hi)
  | None => false
  end.

End JS.

(** ** The class constants *)

Definition TUYA_PORTS : list Z := [6668; 6667; 443].

Definition ANKER_EUFY_OUIS : list string :=
  ["34:ea:34"; "70:55:82"; "90:9a:4a"; "a4:c1:38"; "2c:aa:8e"].

Record NetworkDevice := {
  ip : string;
  mac : option string;
  vendor : option string;
  ports : list Z;
  isLikelyRoboVac : bool
}.

(** ** VendorMatcher: [isAnkerEufyDevice] *)

Definition isAnkerEufyDevice (mac : string) : bool :=
  let macPrefix := JS.substring 0 8 (JS.toLowerCase mac) in
  existsb (fun oui => JS.startsWith macPrefix oui) ANKER_EUFY_OUIS.

(** ** NetworkRangeResolver: [getLocalNetworkRange] *)

Record NetworkInterfaceInfo := {
  family : string;
  internal : bool;
  address : string
}.

(** The value of [os.networkInterfaces()]: the entries of the object in
    order, a name with its address list or [undefined]. *)
Definition interfaces_t := list (string * option (list NetworkInterfaceInfo)).

(** The body of the inner loop for one address: [Some r] is [return r],
    [None] falls through to the next address. *)
Definition range_of_address (addr : NetworkInterfaceInfo) : option string :=
  if String.eqb (family addr) "IPv4" && negb (internal addr) then
    let parts := JS.split "." (address addr) in
    if bool_decide (parts !! 0%nat = Some "192") &&
       bool_decide (parts !! 1%nat = Some "168") then
      Some (JS.tpl (parts !! 0%nat) +:+ "." +:+ JS.tpl (parts !! 1%nat) +:+ "."
            +:+ JS.tpl (parts !! 2%nat) +:+ ".0/24")
    else if bool_decide (parts !! 0%nat = Some "10") then
      Some "10.0.0.0/24"
    else if bool_decide (parts !! 0%nat = Some "172") &&
            JS.between 16 31 (JS.parseInt (parts !! 1%nat)) then
      Some ("172." +:+ JS.tpl (parts !! 1%nat) +:+ ".0.0/16")
    else None
  else None.

Fixpoint range_of_addresses (addrs : list NetworkInterfaceInfo) : option string :=
  match addrs with
  | [] => None
  | addr :: rest =>
      match range_of_address addr with
      | Some r => Some r
      | None => range_of_addresses rest
      end
  end.

Fixpoint range_of_interfaces (ifs : interfaces_t) : option string :=
  match ifs with
  | [] => None
  | (_, None) :: rest => range_of_interfaces rest
  | (_, Some addrs) :: rest =>
      match range_of_addresses addrs with
      | Some r => Some r
      | None => range_of_interfaces rest
      end
  end.

Definition getLocalNetworkRange (ifs : interfaces_t) : string :=
  default "192.168.1.0/24" (range_of_interfaces ifs).

(** ** The host and the effects of the class

    A computation of the class either returns, throws, or waits for a
    promise that never settles.  The computations also record, in order,
    the command lines they hand to [execSync]: these calls block, so the
    order of the record is the order of the source text even inside the
    callbacks of a batch. *)

Inductive outcome (A : Type) : Type :=
  | Ok (a : A)
  | Throw (e : string)
  | Pending.
Arguments Ok {A} a.
Arguments Throw {A} e.
Arguments Pending {A}.

Definition M (A : Type) : Type := list string → outcome A * list string.

#[global] Instance M_ret : MRet M := λ A a log, (Ok a, log).

#[global] Instance M_bind : MBind M := λ A B k m log,
  match m log with
  | (Ok a, log') => k a log'
  | (Throw e, log') => (Throw e, log')
  | (Pending, log') => (Pending, log')
  end.

Definition throw {A} (e : string) : M A := λ log, (Throw e, log).

(** [try { body } catch { handler }] *)
Definition try_catch {A} (body : M A) (handler : string → M A) : M A := λ log,
  match body log with
  | (Throw e, log') => handler e log'
  | r => r
  end.

(** [await Promise.all(ps)]: the results in the order of [ps].  No
    computation handed to it in this class throws or stays pending
    ([probeHost_run], [scanPort_result]), so which rejection would come
    first does not arise. *)
Definition Promise_all {A} (ps : list (M A)) : M (list A) := mapM id ps.

(** The three literal patterns of [getArpTable]. *)
Inductive arp_pattern := DarwinArp | LinuxArp | Win32Arp.

(** What a socket reports to its listeners. *)
Inductive socket_event := SockConnect | SockError.

Record host := {
  (** [os.networkInterfaces()] *)
  os_networkInterfaces : interfaces_t;
  (** [os.platform()] *)
  os_platform : string;
  (** [execSync(cmd, ...)]: the output of the command, or the error thrown
      for a failed start, a non-zero exit or a timeout. *)
  child_process_execSync : string → string + string;
  (** The events a socket connecting to [ip : port] emits before the
      deadline of the probe, in order. *)
  net_socket_events : string → Z → Z → list socket_event;
  (** [line.match(pattern)]: the two capture groups of the leftmost match,
      or [null]. *)
  regexp_match : arp_pattern → string → option (string * string)
}.

Definition execSync (h : host) (cmd : string) : M string := λ log,
  match child_process_execSync h cmd with
  | inl out => (Ok out, log ++ [cmd])
  | inr e => (Throw e, log ++ [cmd])
  end.

(** ** PortProbe: [scanPort]

    The promise of [scanPort] is settled by the first of three callbacks to
    call [resolve]; later calls are ignored. *)

Record probe_state := {
  settled : option bool;
  timer_armed : bool;
  destroyed : bool
}.

Definition resolve (b : bool) (s : probe_state) : probe_state :=
  match settled s with
  | None => {| settled := Some b; timer_armed := timer_armed s; destroyed := destroyed s |}
  | Some _ => s
  end.

Definition clearTimeout (s : probe_state) : probe_state :=
  {| settled := settled s; timer_armed := false; destroyed := destroyed s |}.

Definition socket_destroy (s : probe_state) : probe_state :=
  {| settled := settled s; timer_armed := timer_armed s; destroyed := true |}.

(** The [setTimeout] callback. *)
Definition on_timeout (s : probe_state) : probe_state :=
  resolve false (socket_destroy s).

(** [socket.on("connect", ...)] *)
Definition on_connect (s : probe_state) : probe_state :=
  resolve true (socket_destroy (clearTimeout s)).

(** [socket.on("error", ...)] *)
Definition on_error (s : probe_state) : probe_state :=
  resolve false (clearTimeout s).

(** A destroyed socket emits nothing more to these listeners. *)
Definition deliver (s : probe_state) (e : socket_event) : probe_state :=
  if destroyed s then s
  else match e with
       | SockConnect => on_connect s
       | SockError => on_error s
       end.

(** The socket events up to the deadline, then the timer if still armed. *)
Definition scanPort_run (events : list socket_event) : probe_state :=
  let s := fold_left deliver events
             {| settled := None; timer_armed := true; destroyed := false |} in
  if timer_armed s then on_timeout s else s.

Definition scanPort (h : host) (ip : string) (port : Z) (timeout : Z) : M bool := λ log,
  match settled (scanPort_run (net_socket_events h ip port timeout)) with
  | Some open => (Ok open, log)
  | None => (Pending, log)
  end.

(** ** NeighborTableReader: [getArpTable] *)

(** The match of one line, after the rewriting of a Windows address. *)
Definition arp_line_match (h : host) (platform line : string) : option (string * string) :=
  if String.eqb platform "darwin" then regexp_match h DarwinArp line
  else if String.eqb platform "linux" then regexp_match h LinuxArp line
  else if String.eqb platform "win32" then
    match regexp_match h Win32Arp line with
    | Some (m1, m2) => Some (m1, JS.replaceAll "-" ":" m2)
    | None => None
    end
  else None.

Definition arp_parse (h : host) (platform arpOutput : string) : gmap string string :=
  let lines := JS.split "010" arpOutput in
  fold_left
    (λ arpMap line,
      match arp_line_match h platform line with
      | Some (m1, m2) => <[m1 := JS.toLowerCase m2]> arpMap
      | None => arpMap
      end)
    lines ∅.

Definition getArpTable (h : host) : M (gmap string string) :=
  let arpMap : gmap string string := ∅ in
  try_catch
    (let platform := os_platform h in
     if String.eqb platform "darwin" || String.eqb platform "linux" then
       arpOutput ← execSync h "arp -a";
       mret (arp_parse h platform arpOutput)
     else if String.eqb platform "win32" then
       arpOutput ← execSync h "arp -a";
       mret (arp_parse h platform arpOutput)
     else mret arpMap)
    (λ _, mret arpMap).

(** ** HostProbe: [pingHost] *)

Definition pingCommand (h : host) (ip : string) : string :=
  if String.eqb (os_platform h) "win32"
  then "ping -n 1 -w 1000 " +:+ ip
  else "ping -c 1 -W 1 " +:+ ip.

Definition pingHost (h : host) (ip : string) : M bool :=
  try_catch
    (_ ← execSync h (pingCommand h ip);
     mret true)
    (λ _, mret false).

(** ** DeviceScanner: [discoverDevices] and [findRoboVacs] *)

Definition batchSize : nat := 20.

(** [arr.filter((x, index) => p(x, index))] *)
Definition filter_indexed {A} (p : A → nat → bool) (arr : list A) : list A :=
  (List.filter (λ xi, p xi.1 xi.2) (combine arr (seq 0 (length arr)))).*1.

(** The callback of [batch.map]: the pipeline of one address; [None] is the
    [null] of a discarded host. *)
Definition probeHost (h : host) (arpTable : gmap string string) (ip : string)
    : M (option NetworkDevice) :=
  isAlive ← pingHost h ip;
  if negb isAlive then mret None
  else
    portResults ← Promise_all (map (λ port, scanPort h ip port 500) TUYA_PORTS);
    let openPorts :=
      filter_indexed (λ port index, default false (portResults !! index)) TUYA_PORTS in
    if (length openPorts =? 0)%nat then mret None
    else
      let mac := arpTable !! ip in
      let isAnkerDevice :=
        if JS.truthy mac then isAnkerEufyDevice (JS.tpl mac) else false in
      mret (Some {| ip := ip;
                    mac := mac;
                    vendor := if isAnkerDevice then Some "Anker/Eufy" else None;
                    ports := openPorts;
                    isLikelyRoboVac := isAnkerDevice && JS.includes openPorts 6668 |}).

(** The values of [i] in [for (let i = 0; i < n; i += batchSize)]. *)
Equations batch_offsets (i n : nat) : list nat by wf (n - i)%nat lt :=
  batch_offsets i n with decide (i < n)%nat := {
    | left _ => i :: batch_offsets (i + batchSize) n
    | right _ => []
  }.
Next Obligation. unfold batchSize. lia. Qed.

(** The batch loop, with [devices] the list accumulated so far. *)
Fixpoint scan_batches (h : host) (arpTable : gmap string string) (ips : list string)
    (offsets : list nat) (devices : list NetworkDevice) : M (list NetworkDevice) :=
  match offsets with
  | [] => mret devices
  | i :: offsets' =>
      let batch := JS.slice i (i + batchSize) ips in
      batchResults ← Promise_all (map (probeHost h arpTable) batch);
      let validDevices := omap id batchResults in
      scan_batches h arpTable ips offsets' (devices ++ validDevices)
  end.

(** The addresses built by the first loop of [discoverDevices]. *)
Definition host_addresses (ipParts : list string) : list string :=
  map (λ i, JS.tpl (ipParts !! 0%nat) +:+ "." +:+ JS.tpl (ipParts !! 1%nat) +:+ "."
            +:+ JS.tpl (ipParts !! 2%nat) +:+ "." +:+ JS.show i)
      (seq 1 254).

(** [discoverDevices] up to the sort: the devices in the order found. *)
Definition scanNetwork (h : host) : M (list NetworkDevice) :=
  let networkRange := getLocalNetworkRange (os_networkInterfaces h) in
  arpTable ← getArpTable h;
  match JS.split "/" networkRange with
  | [] => throw "TypeError"
  | baseIp :: _ =>
      let ipParts := JS.split "." baseIp in
      let ips := host_addresses ipParts in
      scan_batches h arpTable ips (batch_offsets 0 (length ips)) []
  end.

(** The comparator handed to [devices.sort]. *)
Definition byLikelihood (a b : NetworkDevice) : Z :=
  if isLikelyRoboVac a && negb (isLikelyRoboVac b) then -1
  else if negb (isLikelyRoboVac a) && isLikelyRoboVac b then 1
  else 0.

(** [arr.sort(cmp)].  The language requires the sort to be stable; for a
    comparator that is a consistent order, as [byLikelihood] is, that fixes
    the result.  It is written here as insertion from the right, where an
    element stays in front of the elements it does not follow. *)
Fixpoint sort_insert {A} (cmp : A → A → Z) (x : A) (sorted : list A) : list A :=
  match sorted with
  | [] => [x]
  | y :: rest =>
      if cmp x y <=? 0 then x :: y :: rest
      else y :: sort_insert cmp x rest
  end.

Definition Array_sort {A} (cmp : A → A → Z) (arr : list A) : list A :=
  foldr (sort_insert cmp) [] arr.

Definition discoverDevices (h : host) : M (list NetworkDevice) :=
  devices ← scanNetwork h;
  mret (Array_sort byLikelihood devices).

Definition findRoboVacs (h : host) : M (list NetworkDevice) :=
  allDevices ← discoverDevices h;
  mret (List.filter
          (λ device,
            isLikelyRoboVac device ||
            (JS.includes (ports device) 6668 &&
             bool_decide (vendor device = Some "Anker/Eufy")))
          allDevices).

(** ** A sample host

    The scenario of the specification: the host sits on [192.168.1.x], the
    neighbour table knows [.50] as an Anker address, [.50] answers with the
    control port open, [.51] answers with no candidate port open, and [.60]
    answers with port 443 open and no neighbour entry. *)

Definition sample_interfaces (a : string) : interfaces_t :=
  [("lo", Some [{| family := "IPv4"; internal := true; address := "127.0.0.1" |}]);
   ("eth0", Some [{| family := "IPv6"; internal := false; address := "fe80::1" |};
                  {| family := "IPv4"; internal := false; address := a |}])].

Definition sample_host (a : string) (arp : string + string) : host := {|
  os_networkInterfaces := sample_interfaces a;
  os_platform := "linux";
  child_process_execSync := λ cmd,
    if String.eqb cmd "arp -a" then arp
    else if String.eqb cmd "ping -c 1 -W 1 192.168.1.50" then inl "1 received"
    else if String.eqb cmd "ping -c 1 -W 1 192.168.1.51" then inl "1 received"
    else if String.eqb cmd "ping -c 1 -W 1 192.168.1.60" then inl "1 received"
    else inr "Command failed";
  net_socket_events := λ ip port _,
    if String.eqb ip "192.168.1.50" && (port =? 6668) then [SockConnect]
    else if String.eqb ip "192.168.1.60" && (port =? 443) then [SockConnect]
    else if String.eqb ip "192.168.1.60" then [SockError]
    else [];
  regexp_match := λ pattern line,
    match pattern with
    | LinuxArp =>
        if String.eqb line "192.168.1.50 ether 34:EA:34:aa:bb:cc C eth0"
        then Some ("192.168.1.50", "34:EA:34:aa:bb:cc")
        else None
    | _ => None
    end
|}.

Definition sample_arp : string :=
  "Address HWtype HWaddress Flags Iface" +:+ String "010" "192.168.1.50 ether 34:EA:34:aa:bb:cc C eth0".

(** * The MCP server: [RoboVacMCPServer]

    The class that answers tool requests.  It owns a [NetworkDiscovery] and
    at most one [RoboVac] of the eufy-robovac library.  The library is a
    record of type [library]: what a call returns may depend on every call
    made before it.  The conditions of the network are those of one [host]
    for the whole request. *)

(** ** The eufy-robovac library *)

(** The object handed to [new RoboVac(...)]. *)
Record RoboVacConfig := {
  config_deviceId : option string;
  config_localKey : option string;
  config_ip : string
}.

(** The methods of a [RoboVac] that the server calls, with their
    arguments. *)
Inductive RoboVacMethod :=
  | connect
  | startCleaning
  | pause
  | goHome
  | getStatuses (force : option bool)
  | getBatteyLevel
  | setWorkMode (mode : option string)
  | setCleanSpeed (speed : option string)
  | play
  | setFindRobot (state : bool)
  | getErrorCode (force : option bool)
  | getWorkMode (force : option bool)
  | getCleanSpeed (force : option bool)
  | getWorkStatus (force : option bool)
  | getPlayPause (force : option bool)
  | formatStatus.

(** What the server did with the library, in order. *)
Inductive RoboVacEvent :=
  | New (config : RoboVacConfig)
  | Call (config : RoboVacConfig) (method : RoboVacMethod).

Record library := {
  (** [new RoboVac(config)] after the events so far: [Some e] when the
      constructor throws [e]. *)
  RoboVac_new : list RoboVacEvent → RoboVacConfig → option string;
  (** [await robovac.method(...)] after the events so far.  The value is
      the text that a template literal, or [JSON.stringify(_, null, 2)] for
      [getStatuses], prints for what the method resolves to. *)
  RoboVac_call : list RoboVacEvent → RoboVacConfig → RoboVacMethod → outcome string
}.

(** ** The state of the server and its computations *)

Record server := {
  (** [this.robovac], [None] for [null]. *)
  robovac : option RoboVacConfig;
  (** The calls made to the library. *)
  calls : list RoboVacEvent;
  (** The commands handed to [execSync]. *)
  execLog : list string
}.

Definition Srv (A : Type) : Type := server → outcome A * server.

#[global] Instance Srv_ret : MRet Srv := λ A a s, (Ok a, s).

#[global] Instance Srv_bind : MBind Srv := λ A B k m s,
  match m s with
  | (Ok a, s') => k a s'
  | (Throw e, s') => (Throw e, s')
  | (Pending, s') => (Pending, s')
  end.

Definition Srv_throw {A} (e : string) : Srv A := λ s, (Throw e, s).

(** [try { body } catch (error) { handler }], with [error.message]. *)
Definition Srv_try {A} (body : Srv A) (handler : string → Srv A) : Srv A := λ s,
  match body s with
  | (Throw e, s') => handler e s'
  | r => r
  end.

(** A computation of the [NetworkDiscovery] inside a request. *)
Definition lift {A} (m : M A) : Srv A := λ s,
  let '(r, log') := m (execLog s) in
  (r, {| robovac := robovac s; calls := calls s; execLog := log' |}).

Definition RoboVac_construct (lib : library) (config : RoboVacConfig)
    : Srv RoboVacConfig := λ s,
  let s' := {| robovac := robovac s; calls := calls s ++ [New config];
               execLog := execLog s |} in
  match RoboVac_new lib (calls s) config with
  | Some e => (Throw e, s')
  | None => (Ok config, s')
  end.

Definition RoboVac_invoke (lib : library) (r : RoboVacConfig)
    (method : RoboVacMethod) : Srv string := λ s,
  (RoboVac_call lib (calls s) r method,
   {| robovac := robovac s; calls := calls s ++ [Call r method];
      execLog := execLog s |}).

(** [this.robovac = r] *)
Definition set_robovac (r : RoboVacConfig) : Srv unit := λ s,
  (Ok tt, {| robovac := Some r; calls := calls s; execLog := execLog s |}).

(** ** [initializeRoboVac], [ensureRoboVacInitialized],
    [discoverBestRoboVacIP] *)

Definition initializeRoboVac (lib : library) (deviceId localKey ip : option string)
    : Srv bool :=
  Srv_try
    (r ← RoboVac_construct lib
           {| config_deviceId := deviceId;
              config_localKey := localKey;
              config_ip := if JS.truthy ip then JS.tpl ip else "192.168.1.100" |};
     _ ← set_robovac r;
     _ ← RoboVac_invoke lib r connect;
     mret true)
    (λ _, mret false).

(** The check, and the [this.robovac!] that every caller reads next. *)
Definition ensureRoboVacInitialized : Srv RoboVacConfig := λ s,
  match robovac s with
  | None =>
      (Throw "RoboVac not initialized. Please run robovac_auto_initialize or robovac_connect first.", s)
  | Some r => (Ok r, s)
  end.

Definition discoverBestRoboVacIP (h : host) : M (option string) :=
  try_catch
    (devices ← discoverDevices h;
     if (length devices =? 0)%nat then mret None
     else
       let likelyRoboVacs := List.filter isLikelyRoboVac devices in
       match likelyRoboVacs with
       | bestDevice :: _ => mret (Some (ip bestDevice))
       | [] =>
           let devicesWithPort6668 :=
             List.filter (λ device, JS.includes (ports device) 6668) devices in
           match devicesWithPort6668 with
           | potentialDevice :: _ => mret (Some (ip potentialDevice))
           | [] => mret None
           end
       end)
    (λ _, mret None).

(** ** The tool requests *)

(** The names that the handler of [ListToolsRequestSchema] lists. *)
Definition listedTools : list string :=
  ["robovac_set_work_mode"; "robovac_set_clean_speed"; "robovac_play";
   "robovac_pause"; "robovac_find_robot"; "robovac_get_error_code";
   "robovac_get_work_mode"; "robovac_get_clean_speed"; "robovac_get_work_status";
   "robovac_get_play_pause"; "robovac_format_status"; "robovac_get_all_statuses";
   "robovac_auto_initialize"; "robovac_connect_discovered"; "robovac_connect";
   "robovac_start_cleaning"; "robovac_stop_cleaning"; "robovac_return_home";
   "robovac_get_status"; "robovac_get_battery"].

(** [request.params.arguments], with the types of the input schemas; a
    missing argument, or no arguments at all, is [None] throughout. *)
Record ToolArguments := {
  arg_ip : option string;
  arg_deviceId : option string;
  arg_localKey : option string;
  arg_mode : option string;
  arg_speed : option string;
  arg_enable : option bool;
  arg_force : option bool;
  arg_deviceIndex : option Z
}.

(** The answer to a request: the text of its one content item, and
    [isError] when the answer has the key. *)
Record ToolResult := {
  text : string;
  isError : option bool
}.

(** The message of the [TypeError] for reading a property of [undefined]. *)
Definition TypeError_deviceId : string :=
  "Cannot read properties of undefined (reading 'deviceId')".

Definition auto_initialize_advice : string :=
  String "010" (String "010" "⚠️  The Eufy API appears to have changed since this implementation was created. As an alternative, you can:

1. Use the Eufy app to find your device IP address
2. Use a network scanner to find devices on your network
3. Check your router's device list
4. Use tools like eufy-security-client or other community projects

Once you have the device credentials, you can use the eufy-robovac library directly.").

(** The shape of the cases that drive the device: the check, one call, and
    a text made from what it returned. *)
Definition drive (lib : library) (method : RoboVacMethod) (answer : string → string)
    : Srv ToolResult :=
  r ← ensureRoboVacInitialized;
  value ← RoboVac_invoke lib r method;
  mret {| text := answer value; isError := None |}.

Definition robovac_connect_discovered (h : host) (lib : library) (args : ToolArguments)
    : Srv ToolResult :=
  let targetIP := arg_ip args in
  discoveredSuccess ←
    (if JS.truthy targetIP
     then initializeRoboVac lib (arg_deviceId args) (arg_localKey args) targetIP
     else mret false);
  attempt ←
    ((if negb discoveredSuccess then
       discoveredIP ← lift (discoverBestRoboVacIP h);
       if JS.truthy discoveredIP then
         success ← initializeRoboVac lib (arg_deviceId args) (arg_localKey args)
                     discoveredIP;
         mret (discoveredIP, success)
       else mret (targetIP, discoveredSuccess)
     else mret (targetIP, discoveredSuccess)) : Srv (option string * bool));
  let targetIP : option string := attempt.1 in
  let discoveredSuccess : bool := attempt.2 in
  mret {| text :=
            if discoveredSuccess
            then "Successfully connected to RoboVac at " +:+ JS.tpl targetIP +:+ "!"
            else "Failed to connect to device. "
                 +:+ (if JS.truthy targetIP
                      then "Tried " +:+ JS.tpl targetIP +:+ " but" else "")
                 +:+ " Check your device ID and local key, and ensure the RoboVac is on the same network.";
          isError := Some (negb discoveredSuccess) |}.

Definition robovac_connect (h : host) (lib : library) (args : ToolArguments)
    : Srv ToolResult :=
  let connectTargetIP := arg_ip args in
  connectSuccess ←
    (if JS.truthy connectTargetIP
     then initializeRoboVac lib (arg_deviceId args) (arg_localKey args) connectTargetIP
     else mret false);
  attempt ←
    ((if negb connectSuccess then
       discoveredIP ← lift (discoverBestRoboVacIP h);
       if JS.truthy discoveredIP then
         success ← initializeRoboVac lib (arg_deviceId args) (arg_localKey args)
                     discoveredIP;
         mret (discoveredIP, success)
       else mret (connectTargetIP, connectSuccess)
     else mret (connectTargetIP, connectSuccess)) : Srv (option string * bool));
  let connectTargetIP : option string := attempt.1 in
  let connectSuccess : bool := attempt.2 in
  attempt ←
    ((if negb connectSuccess && negb (JS.truthy connectTargetIP) then
       success ← initializeRoboVac lib (arg_deviceId args) (arg_localKey args)
                   (Some "192.168.1.100");
       mret (Some "192.168.1.100", success)
     else mret (connectTargetIP, connectSuccess)) : Srv (option string * bool));
  let connectTargetIP : option string := attempt.1 in
  let connectSuccess : bool := attempt.2 in
  mret {| text :=
            if connectSuccess
            then "RoboVac connected successfully at " +:+ JS.tpl connectTargetIP +:+ "!"
            else "Failed to connect to RoboVac. "
                 +:+ (if JS.truthy connectTargetIP
                      then "Tried " +:+ JS.tpl connectTargetIP +:+ " but connection failed."
                      else "")
                 +:+ " Check your device ID, local key, and network connection.";
          isError := Some (negb connectSuccess) |}.

(** The devices of a scan have no [deviceId], [localKey] or [name]: the
    case reads [undefined] for each. *)
Definition robovac_auto_initialize (h : host) (lib : library) (args : ToolArguments)
    : Srv ToolResult :=
  Srv_try
    (devices ← lift (discoverDevices h);
     if (length devices =? 0)%nat then
       mret {| text := "No RoboVac devices found."; isError := Some true |}
     else
       let deviceIndex :=
         match arg_deviceIndex args with
         | Some n => if n =? 0 then 0 else n
         | None => 0
         end in
       if Z.of_nat (length devices) <=? deviceIndex then
         mret {| text := "Device index " +:+ JS.show (Z.to_nat deviceIndex)
                         +:+ " is out of range. Found " +:+ JS.show (length devices)
                         +:+ " device(s).";
                 isError := Some true |}
       else
         match (if 0 <=? deviceIndex then devices !! Z.to_nat deviceIndex else None) with
         | None => Srv_throw TypeError_deviceId
         | Some selectedDevice =>
             autoInitSuccess ← initializeRoboVac lib None None (Some (ip selectedDevice));
             retried ←
               (if negb autoInitSuccess then
                  discoveredIP ← lift (discoverBestRoboVacIP h);
                  if JS.truthy discoveredIP
                  then initializeRoboVac lib None None discoveredIP
                  else mret autoInitSuccess
                else mret autoInitSuccess);
             let autoInitSuccess : bool := retried in
             mret {| text :=
                       if autoInitSuccess
                       then "Successfully connected to " +:+ JS.tpl None +:+ "!"
                       else "Failed to connect to " +:+ JS.tpl None
                            +:+ ". Check network connection and ensure the device is online.";
                     isError := Some (negb autoInitSuccess) |}
         end)
    (λ message,
      mret {| text := "Auto-initialization failed: " +:+ message +:+ auto_initialize_advice;
              isError := Some true |}).

(** The handler of [CallToolRequestSchema]. *)
Definition callTool (h : host) (lib : library) (name : string) (args : ToolArguments)
    : Srv ToolResult :=
  Srv_try
    (if String.eqb name "robovac_connect_discovered" then
       robovac_connect_discovered h lib args
     else if String.eqb name "robovac_connect" then
       robovac_connect h lib args
     else if String.eqb name "robovac_auto_initialize" then
       robovac_auto_initialize h lib args
     else if String.eqb name "robovac_start_cleaning" then
       drive lib startCleaning (λ _, "RoboVac cleaning started!")
     else if String.eqb name "robovac_stop_cleaning" then
       drive lib pause (λ _, "RoboVac cleaning stopped!")
     else if String.eqb name "robovac_return_home" then
       drive lib goHome (λ _, "RoboVac returning to charging dock!")
     else if String.eqb name "robovac_get_status" then
       drive lib (getStatuses None)
             (λ status, "RoboVac Status:" +:+ String "010" status)
     else if String.eqb name "robovac_get_battery" then
       drive lib getBatteyLevel (λ battery, "Battery Level: " +:+ battery +:+ "%")
     else if String.eqb name "robovac_set_work_mode" then
       drive lib (setWorkMode (arg_mode args))
             (λ _, "Work mode set to: " +:+ JS.tpl (arg_mode args))
     else if String.eqb name "robovac_set_clean_speed" then
       drive lib (setCleanSpeed (arg_speed args))
             (λ _, "Clean speed set to: " +:+ JS.tpl (arg_speed args))
     else if String.eqb name "robovac_play" then
       drive lib play (λ _, "RoboVac started/resumed cleaning!")
     else if String.eqb name "robovac_pause" then
       drive lib pause (λ _, "RoboVac paused!")
     else if String.eqb name "robovac_find_robot" then
       let enableFind := match arg_enable args with Some b => b | None => true end in
       drive lib (setFindRobot enableFind)
             (λ _, if enableFind
                   then "Find robot enabled - RoboVac should be beeping!"
                   else "Find robot disabled")
     else if String.eqb name "robovac_get_error_code" then
       drive lib (getErrorCode (arg_force args))
             (λ errorCode, "Error Code: " +:+ errorCode)
     else if String.eqb name "robovac_get_work_mode" then
       drive lib (getWorkMode (arg_force args))
             (λ workMode, "Work Mode: " +:+ workMode)
     else if String.eqb name "robovac_get_clean_speed" then
       drive lib (getCleanSpeed (arg_force args))
             (λ cleanSpeed, "Clean Speed: " +:+ cleanSpeed)
     else if String.eqb name "robovac_get_work_status" then
       drive lib (getWorkStatus (arg_force args))
             (λ workStatus, "Work Status: " +:+ workStatus)
     else if String.eqb name "robovac_get_play_pause" then
       drive lib (getPlayPause (arg_force args))
             (λ playPause, "Play/Pause State: " +:+ playPause)
     else if String.eqb name "robovac_format_status" then
       drive lib formatStatus
             (λ _, "Status information has been printed to console. Use robovac_get_all_statuses for structured data.")
     else if String.eqb name "robovac_get_all_statuses" then
       drive lib (getStatuses (arg_force args))
             (λ allStatuses, "All RoboVac Statuses:" +:+ String "010" allStatuses)
     else Srv_throw ("Unknown tool: " +:+ name))
    (λ message, mret {| text := "Error: " +:+ message; isError := Some true |}).

(** ** A sample library

    A device at [192.168.1.50] that accepts connections; the constructor
    insists on a device id. *)
Definition sample_library : library := {|
  RoboVac_new := λ _ config,
    if JS.truthy (config_deviceId config) then None
    else Some "You must pass through deviceId";
  RoboVac_call := λ _ config method,
    match method with
    | connect =>
        if String.eqb (config_ip config) "192.168.1.50" then Ok ""
        else Throw "connection timed out"
    | getBatteyLevel => Ok "87"
    | getStatuses _ => Ok "{}"
    | _ => Ok ""
    end
|}.

Definition sample_arguments (a : option string) : ToolArguments := {|
  arg_ip := a;
  arg_deviceId := Some "device-1";
  arg_localKey := Some "key-1";
  arg_mode := None;
  arg_speed := None;
  arg_enable := None;
  arg_force := None;
  arg_deviceIndex := None
|}.

Definition fresh_server : server := {| robovac := None; calls := []; execLog := [] |}.

(** * Notions used in the statements

    What the probes return and what a scan visits, read off the host.  The
    lemmas [pingHost_run], [scanPort_result], [getArpTable_run],
    [probeHost_run] and [discoverDevices_run] below show that these are the
    values the functions of the class compute. *)

(** A connection attempt succeeds when the first thing the socket reports
    before the deadline is [connect]. *)
Definition connects (events : list socket_event) : bool :=
  match events with
  | SockConnect :: _ => true
  | _ => false
  end.

Definition port_open (h : host) (ip : string) (port : Z) : bool :=
  connects (net_socket_events h ip port 500).

(** The host answers when the ping command exits normally. *)
Definition answers (h : host) (ip : string) : bool :=
  match child_process_execSync h (pingCommand h ip) with
  | inl _ => true
  | inr _ => false
  end.

Definition arp_supported (h : host) : bool :=
  String.eqb (os_platform h) "darwin" || String.eqb (os_platform h) "linux"
  || String.eqb (os_platform h) "win32".

(** The table that [getArpTable] returns. *)
Definition arp_table (h : host) : gmap string string :=
  if arp_supported h then
    match child_process_execSync h "arp -a" with
    | inl arpOutput => arp_parse h (os_platform h) arpOutput
    | inr _ => ∅
    end
  else ∅.

Definition arp_commands (h : host) : list string :=
  if arp_supported h then ["arp -a"] else [].

Definition open_ports (h : host) (ip : string) : list Z :=
  List.filter (port_open h ip) TUYA_PORTS.

Definition is_anker (mac : option string) : bool :=
  if JS.truthy mac then isAnkerEufyDevice (JS.tpl mac) else false.

(** The record that the pipeline builds for an address it keeps. *)
Definition device_at (h : host) (arpTable : gmap string string) (ip : string)
    : NetworkDevice :=
  {| ip := ip;
     mac := arpTable !! ip;
     vendor := if is_anker (arpTable !! ip) then Some "Anker/Eufy" else None;
     ports := open_ports h ip;
     isLikelyRoboVac := is_anker (arpTable !! ip) && JS.includes (open_ports h ip) 6668 |}.

(** An address is kept when it answers and a candidate port is open. *)
Definition kept (h : host) (ip : string) : bool :=
  answers h ip && negb (length (open_ports h ip) =? 0)%nat.

Definition probe (h : host) (arpTable : gmap string string) (ip : string)
    : option NetworkDevice :=
  if kept h ip then Some (device_at h arpTable ip) else None.

Definition batches (ips : list string) (offsets : list nat) : list (list string) :=
  map (λ i, JS.slice i (i + batchSize) ips) offsets.

(** The base address that [discoverDevices] cuts out of a range. *)
Definition base_of (networkRange : string) : string :=
  match JS.split "/" networkRange with
  | baseIp :: _ => baseIp
  | [] => ""
  end.

(** The addresses that a scan on host [h] enumerates. *)
Definition scan_targets (h : host) : list string :=
  host_addresses (JS.split "." (base_of (getLocalNetworkRange (os_networkInterfaces h)))).

(** All the addresses of the interfaces, in the order the resolver visits
    them. *)
Definition addresses (ifs : interfaces_t) : list NetworkInterfaceInfo :=
  flat_map (λ entry, default [] entry.2) ifs.

(** [lacks sep s]: the character does not occur in the string. *)
Fixpoint lacks (sep : ascii) (s : string) : bool :=
  match s with
  | EmptyString => true
  | String c s' => negb (Ascii.eqb c sep) && lacks sep s'
  end.

(** [strip_prefix p s]: what follows [p] in [s], when [s] begins with [p]. *)
Fixpoint strip_prefix (p s : string) : option string :=
  match p, s with
  | EmptyString, _ => Some s
  | String a p', String b s' => if Ascii.eqb a b then strip_prefix p' s' else None
  | String _ _, EmptyString => None
  end.

Definition ping_prefix (h : host) : string :=
  if String.eqb (os_platform h) "win32" then "ping -n 1 -w 1000 " else "ping -c 1 -W 1 ".

(** The addresses that a record of commands pinged, in order. *)
Definition pinged_hosts (h : host) (trace : list string) : list string :=
  omap (strip_prefix (ping_prefix h)) trace.

(** The library method behind each tool that drives the device. *)
Definition tool_method (name : string) (args : ToolArguments) : option RoboVacMethod :=
  if String.eqb name "robovac_start_cleaning" then Some startCleaning
  else if String.eqb name "robovac_stop_cleaning" then Some pause
  else if String.eqb name "robovac_return_home" then Some goHome
  else if String.eqb name "robovac_get_status" then Some (getStatuses None)
  else if String.eqb name "robovac_get_battery" then Some getBatteyLevel
  else if String.eqb name "robovac_set_work_mode" then Some (setWorkMode (arg_mode args))
  else if String.eqb name "robovac_set_clean_speed" then Some (setCleanSpeed (arg_speed args))
  else if String.eqb name "robovac_play" then Some play
  else if String.eqb name "robovac_pause" then Some pause
  else if String.eqb name "robovac_find_robot" then
    Some (setFindRobot (default true (arg_enable args)))
  else if String.eqb name "robovac_get_error_code" then Some (getErrorCode (arg_force args))
  else if String.eqb name "robovac_get_work_mode" then Some (getWorkMode (arg_force args))
  else if String.eqb name "robovac_get_clean_speed" then Some (getCleanSpeed (arg_force args))
  else if String.eqb name "robovac_get_work_status" then Some (getWorkStatus (arg_force args))
  else if String.eqb name "robovac_get_play_pause" then Some (getPlayPause (arg_force args))
  else if String.eqb name "robovac_format_status" then Some formatStatus
  else if String.eqb name "robovac_get_all_statuses" then Some (getStatuses (arg_force args))
  else None.

(** The state after one more event of the library. *)
Definition record_event (s : server) (e : RoboVacEvent) : server :=
  {| robovac := robovac s; calls := calls s ++ [e]; execLog := execLog s |}.

(** The configuration that [initializeRoboVac] hands to the library. *)
Definition config_of (deviceId localKey ip : option string) : RoboVacConfig :=
  {| config_deviceId := deviceId;
     config_localKey := localKey;
     config_ip := if JS.truthy ip then JS.tpl ip else "192.168.1.100" |}.

(** The object that an event of the library is about. *)
Definition event_config (e : RoboVacEvent) : RoboVacConfig :=
  match e with
  | New config | Call config _ => config
  end.

(** What the lines say about the address [a]. *)
Definition arp_entries (h : host) (platform : string) (a : string)
    (lines : list string) : list string :=
  omap (λ line,
         match arp_line_match h platform line with
         | Some (m1, m2) => if decide (m1 = a) then Some (JS.toLowerCase m2) else None
         | None => None
         end)
       lines.

(** The same host with other sockets. *)
Definition with_sockets (h : host)
    (events : string → Z → Z → list socket_event) : host :=
  {| os_networkInterfaces := os_networkInterfaces h;
     os_platform := os_platform h;
     child_process_execSync := child_process_execSync h;
     net_socket_events := events;
     regexp_match := regexp_match h |}.

(** * Properties *)

(** ** Running a computation *)

Lemma bind_Ok {A B} (m : M A) (k : A → M B) log a log' :
  m log = (Ok a, log') → (m ≫= k) log = k a log'.
Proof. intros Hm. unfold mbind, M_bind. by rewrite Hm. Qed.

Lemma ret_run {A} (a : A) log : mret (M := M) a log = (Ok a, log).
Proof. reflexivity. Qed.

Section Run.
Context {A B : Type}.

(** A list of computations that all return, each adding its own piece to
    the record, returns the list of their results. *)
Lemma Promise_all_map_run (f : A → M B) (g : A → B) (tr : A → list string) xs :
  (∀ x log, x ∈ xs → f x log = (Ok (g x), log ++ tr x)) →
  ∀ log, Promise_all (map f xs) log = (Ok (map g xs), log ++ concat (map tr xs)).
Proof.
  unfold Promise_all. induction xs as [|x xs IH]; intros Hf log; simpl.
  - by rewrite app_nil_r.
  - rewrite (bind_Ok _ _ log (g x) (log ++ tr x)) by (apply Hf; left).
    rewrite (bind_Ok _ _ _ (map g xs) ((log ++ tr x) ++ concat (map tr xs))).
    + by rewrite ret_run, app_assoc.
    + apply IH. intros y l Hy. apply Hf. by right.
Qed.
End Run.

(** ** PortProbe *)

Lemma deliver_after_settled events s b :
  settled s = Some b → timer_armed s = false →
  let s' := fold_left deliver events s in
  settled s' = Some b ∧ timer_armed s' = false.
Proof.
  revert s. induction events as [|e events IH]; intros s Hs Ht; simpl; [done|].
  apply IH.
  - unfold deliver. destruct (destroyed s); [done|].
    destruct e; unfold on_connect, on_error, resolve; simpl; by rewrite Hs.
  - unfold deliver. destruct (destroyed s); [done|].
    destruct e; unfold on_connect, on_error, resolve; simpl; by rewrite Hs.
Qed.

Lemma scanPort_run_settled events :
  settled (scanPort_run events) = Some (connects events).
Proof.
  unfold scanPort_run. destruct events as [|[] events]; simpl; [done| |].
  - edestruct (deliver_after_settled events) as [Hs Ht]; [| |rewrite Ht, Hs]; done.
  - edestruct (deliver_after_settled events) as [Hs Ht]; [| |rewrite Ht, Hs]; done.
Qed.

Lemma scanPort_500_run h ip port log :
  scanPort h ip port 500 log = (Ok (port_open h ip port), log).
Proof. unfold scanPort. by rewrite scanPort_run_settled. Qed.

(** ** HostProbe *)

Lemma pingHost_run h ip log :
  pingHost h ip log = (Ok (answers h ip), log ++ [pingCommand h ip]).
Proof.
  unfold pingHost, try_catch, answers, mbind, M_bind, execSync.
  by destruct (child_process_execSync h (pingCommand h ip)).
Qed.

(** ** NeighborTableReader *)

Lemma getArpTable_run h log :
  getArpTable h log = (Ok (arp_table h), log ++ arp_commands h).
Proof.
  unfold getArpTable, arp_table, arp_commands, arp_supported, try_catch,
    mbind, M_bind, execSync.
  destruct (String.eqb (os_platform h) "darwin"),
    (String.eqb (os_platform h) "linux"),
    (String.eqb (os_platform h) "win32"); simpl;
    try (destruct (child_process_execSync h "arp -a")); simpl;
    by rewrite ?app_nil_r.
Qed.

(** ** The pipeline of one address *)

Lemma filter_indexed_TUYA_PORTS (p : Z → bool) :
  filter_indexed (λ _ index, default false (map p TUYA_PORTS !! index)) TUYA_PORTS
  = List.filter p TUYA_PORTS.
Proof.
  unfold filter_indexed, TUYA_PORTS. simpl.
  by destruct (p 6668), (p 6667), (p 443).
Qed.

Lemma probeHost_run h arpTable ip log :
  probeHost h arpTable ip log = (Ok (probe h arpTable ip), log ++ [pingCommand h ip]).
Proof.
  unfold probeHost, probe, kept.
  rewrite (bind_Ok _ _ _ _ _ (pingHost_run h ip log)).
  destruct (answers h ip); cbn [negb andb]; [|done].
  erewrite bind_Ok; last first.
  { apply (Promise_all_map_run _ (port_open h ip) (λ _, [])).
    intros port l _. by rewrite scanPort_500_run, app_nil_r. }
  rewrite filter_indexed_TUYA_PORTS. fold (open_ports h ip).
  replace (concat (map (λ _ : Z, []) TUYA_PORTS)) with (@nil string) by done.
  rewrite app_nil_r.
  by destruct (length (open_ports h ip) =? 0)%nat.
Qed.

(** ** The batch loop *)

Lemma omap_id_map {A B} (f : A → option B) (l : list A) :
  omap id (map f l) = omap f l.
Proof. induction l as [|x l IH]; csimpl; [done|]. rewrite IH. by destruct (f x). Qed.

Lemma concat_map_singleton {A B} (f : A → B) (l : list A) :
  concat (map (λ x, [f x]) l) = map f l.
Proof. induction l as [|x l IH]; simpl; [done|]. by rewrite IH. Qed.

Lemma scan_batches_run h arpTable ips offsets devices log :
  scan_batches h arpTable ips offsets devices log
  = (Ok (devices ++ omap (probe h arpTable) (concat (batches ips offsets))),
     log ++ map (pingCommand h) (concat (batches ips offsets))).
Proof.
  revert devices log. induction offsets as [|i offsets IH]; intros devices log; simpl.
  - by rewrite ret_run, !app_nil_r.
  - erewrite bind_Ok; last first.
    { apply (Promise_all_map_run _ (probe h arpTable) (λ ip, [pingCommand h ip])).
      intros x l _. apply probeHost_run. }
    rewrite IH, omap_id_map. simpl.
    by rewrite omap_app, map_app, <- !app_assoc, concat_map_singleton.
Qed.

(** The batches, one after the other, are the address list again: slicing
    loses no address and repeats none. *)
Lemma batches_from (ips : list string) i :
  concat (batches ips (batch_offsets i (length ips))) = drop i ips.
Proof.
  remember (length ips - i)%nat as k eqn:Hk.
  revert i Hk. induction (lt_wf k) as [k _ IH]. intros i ->.
  simp batch_offsets. destruct (decide (i < length ips)%nat) as [Hlt|Hge]; simpl.
  - unfold batches in *.
    rewrite (IH (length ips - (i + batchSize))%nat (ltac:(unfold batchSize; lia)) _ eq_refl).
    unfold JS.slice.
    replace (i + batchSize - i)%nat with batchSize by lia.
    rewrite <- drop_drop. apply take_drop.
  - by rewrite drop_ge by lia.
Qed.

Lemma batches_all (ips : list string) :
  concat (batches ips (batch_offsets 0 (length ips))) = ips.
Proof. by rewrite batches_from. Qed.

(** ** The whole scan *)

Lemma split_nonempty sep s : ∃ piece rest, JS.split sep s = piece :: rest.
Proof.
  induction s as [|c s (piece & rest & IH)]; simpl; [by eauto|].
  destruct (Ascii.eqb c sep); [by eauto|]. rewrite IH. eauto.
Qed.

Lemma host_addresses_length ipParts : length (host_addresses ipParts) = 254%nat.
Proof. unfold host_addresses. by rewrite length_map, length_seq. Qed.

Lemma scanNetwork_run h log :
  scanNetwork h log
  = (Ok (omap (probe h (arp_table h)) (scan_targets h)),
     log ++ arp_commands h ++ map (pingCommand h) (scan_targets h)).
Proof.
  unfold scanNetwork, scan_targets, base_of.
  rewrite (bind_Ok _ _ _ _ _ (getArpTable_run h log)).
  destruct (split_nonempty "/" (getLocalNetworkRange (os_networkInterfaces h)))
    as (baseIp & rest & ->).
  by rewrite scan_batches_run, batches_all, app_assoc.
Qed.

(** ** Ranker *)

Section Ranker.
Abbreviation likely := isLikelyRoboVac.
Abbreviation unlikely := (λ d, negb (isLikelyRoboVac d)).

Lemma sort_insert_likely x l :
  likely x = true → sort_insert byLikelihood x l = x :: l.
Proof.
  intros Hx. destruct l as [|y l]; simpl; [done|].
  unfold byLikelihood. rewrite Hx. by destruct (likely y).
Qed.

Lemma sort_insert_unlikely x front back :
  likely x = false →
  Forall (λ d, likely d = true) front →
  Forall (λ d, likely d = false) back →
  sort_insert byLikelihood x (front ++ back) = front ++ x :: back.
Proof.
  intros Hx Hfront Hback. induction Hfront as [|y front Hy _ IH]; simpl.
  - destruct Hback as [|y back Hy _]; simpl; [done|].
    unfold byLikelihood. by rewrite Hx, Hy.
  - unfold byLikelihood at 1. rewrite Hx, Hy. simpl. by rewrite IH.
Qed.

Lemma Forall_filter_true {A} (p : A → bool) l :
  Forall (λ x, p x = true) (List.filter p l).
Proof. apply List.Forall_forall. intros x Hx. by apply filter_In in Hx as [_ ?]. Qed.

(** Sorting by likelihood is the stable partition of the list. *)
Lemma Array_sort_byLikelihood (devices : list NetworkDevice) :
  Array_sort byLikelihood devices
  = List.filter likely devices ++ List.filter unlikely devices.
Proof.
  unfold Array_sort. induction devices as [|x l IH]; simpl; [done|].
  rewrite IH. destruct (likely x) eqn:Hx; simpl.
  - by apply sort_insert_likely.
  - apply sort_insert_unlikely; [done|apply Forall_filter_true|].
    eapply Forall_impl; [apply (Forall_filter_true unlikely)|].
    intros d Hd. simpl in Hd. by destruct (likely d).
Qed.
(** Any stable sort gives that list: a rearrangement with the likely
devices in front that keeps the order inside each group is the stable
partition. *)
Lemma stable_partition_unique (found sorted front back : list NetworkDevice) :
  sorted = front ++ back →
  Forall (λ d, likely d = true) front →
  Forall (λ d, likely d = false) back →
  List.filter likely sorted = List.filter likely found →
  List.filter unlikely sorted = List.filter unlikely found →
  sorted = List.filter likely found ++ List.filter unlikely found.
Proof.
  intros -> Hfront Hback <- <-. rewrite !List.filter_app.
  assert (List.filter likely front = front) as ->.
  { apply forallb_filter_id, forallb_forall, List.Forall_forall. done. }
  assert (List.filter likely back = []) as ->.
  { induction Hback as [|d back Hd _ IH]; simpl; [done|]. by rewrite Hd. }
  assert (List.filter unlikely front = []) as ->.
  { induction Hfront as [|d front Hd _ IH]; simpl; [done|]. by rewrite Hd. }
  assert (List.filter unlikely back = back) as ->.
  { apply forallb_filter_id, forallb_forall, List.Forall_forall.
    eapply Forall_impl; [exact Hback|]. intros d Hd. simpl in Hd. by rewrite Hd. }
  by rewrite app_nil_r.
Qed.

End Ranker.

Lemma discoverDevices_run h log :
  discoverDevices h log
  = (Ok (Array_sort byLikelihood (omap (probe h (arp_table h)) (scan_targets h))),
     log ++ arp_commands h ++ map (pingCommand h) (scan_targets h)).
Proof.
  unfold discoverDevices. by rewrite (bind_Ok _ _ _ _ _ (scanNetwork_run h log)).
Qed.

(** ** VendorMatcher *)

Section VendorMatcher.

Lemma lower_upper_ascii c : JS.lower_ascii (JS.upper_ascii c) = JS.lower_ascii c.
Proof. by destruct c as [[] [] [] [] [] [] [] []]. Qed.

Lemma lower_lower_ascii c : JS.lower_ascii (JS.lower_ascii c) = JS.lower_ascii c.
Proof. by destruct c as [[] [] [] [] [] [] [] []]. Qed.

Lemma toLowerCase_toUpperCase s : JS.toLowerCase (JS.toUpperCase s) = JS.toLowerCase s.
Proof. induction s as [|c s IH]; simpl; [done|]. by rewrite lower_upper_ascii, IH. Qed.

Lemma toLowerCase_idemp s : JS.toLowerCase (JS.toLowerCase s) = JS.toLowerCase s.
Proof. induction s as [|c s IH]; simpl; [done|]. by rewrite lower_lower_ascii, IH. Qed.

Lemma toLowerCase_length s : String.length (JS.toLowerCase s) = String.length s.
Proof. induction s as [|c s IH]; simpl; [done|]. by rewrite IH. Qed.

(** Taking the first characters commutes with lower-casing. *)
Lemma substring_toLowerCase n s :
  JS.substring 0 n (JS.toLowerCase s) = JS.toLowerCase (JS.substring 0 n s).
Proof.
  unfold JS.substring. rewrite Nat.sub_0_r.
  revert s. induction n as [|n IH]; intros [|c s]; simpl; try done.
  by rewrite IH.
Qed.

Lemma substring_length_le n s : (String.length (JS.substring 0 n s) ≤ n)%nat.
Proof.
  unfold JS.substring. rewrite Nat.sub_0_r.
  revert s. induction n as [|n IH]; intros [|c s]; simpl; try lia.
  specialize (IH s). lia.
Qed.

Lemma substring_idemp n s :
  JS.substring 0 n (JS.substring 0 n s) = JS.substring 0 n s.
Proof.
  unfold JS.substring. rewrite Nat.sub_0_r.
  revert s. induction n as [|n IH]; intros [|c s]; simpl; try done.
  by rewrite IH.
Qed.

(** A prefix as long as the whole string is the whole string. *)
Lemma prefix_full p s :
  String.prefix p s = true → (String.length s ≤ String.length p)%nat → s = p.
Proof.
  revert s. induction p as [|a p IH]; intros [|b s]; simpl; try done; try lia.
  destruct (ascii_dec a b) as [->|]; [|done].
  intros Hp Hlen. f_equal. apply IH; [done|lia].
Qed.

Lemma prefix_refl s : String.prefix s s = true.
Proof. induction s as [|a s IH]; simpl; [done|]. by destruct (ascii_dec a a). Qed.

Lemma isAnkerEufyDevice_spec mac :
  isAnkerEufyDevice mac = true ↔
  JS.toLowerCase (JS.substring 0 8 mac) ∈ ANKER_EUFY_OUIS.
Proof.
  unfold isAnkerEufyDevice. rewrite substring_toLowerCase.
  set (macPrefix := JS.toLowerCase (JS.substring 0 8 mac)).
  assert (String.length macPrefix ≤ 8)%nat as Hlen.
  { unfold macPrefix. rewrite toLowerCase_length. apply substring_length_le. }
  rewrite existsb_exists. split.
  - intros (oui & Hin & Hpre). unfold JS.startsWith in Hpre.
    assert (String.length oui = 8%nat) as Ho.
    { unfold ANKER_EUFY_OUIS in Hin. simpl in Hin.
      destruct Hin as [<-|[<-|[<-|[<-|[<-|[]]]]]]; reflexivity. }
    rewrite (prefix_full oui macPrefix Hpre) by lia.
    by apply list_elem_of_In.
  - intros Hin. exists macPrefix. split; [by apply list_elem_of_In|].
    apply prefix_refl.
Qed.

Lemma isAnkerEufyDevice_lower mac1 mac2 :
  JS.toLowerCase (JS.substring 0 8 mac1) = JS.toLowerCase (JS.substring 0 8 mac2) →
  isAnkerEufyDevice mac1 = isAnkerEufyDevice mac2.
Proof.
  intros Heq. apply eq_true_iff_eq. rewrite !isAnkerEufyDevice_spec. by rewrite Heq.
Qed.

End VendorMatcher.

(** C8. Vendor matching lower-cases the MAC string, takes its first eight
    characters and compares them with the fixed list of prefixes: the
    address [34:EA:34:11:22:33] matches, a MAC matches exactly when its
    lower-cased eight-character prefix is one of the listed prefixes, the
    case of the letters does not matter, and nothing after the eighth
    character matters. *)
Theorem isAnkerEufyDevice_case_insensitive_prefix :
  isAnkerEufyDevice "34:EA:34:11:22:33" = true ∧
  (∀ mac, isAnkerEufyDevice mac = true ↔
          ∃ oui, oui ∈ ANKER_EUFY_OUIS ∧
                 JS.startsWith (JS.substring 0 8 (JS.toLowerCase mac)) oui = true) ∧
  (∀ mac, isAnkerEufyDevice mac = true ↔
          JS.toLowerCase (JS.substring 0 8 mac) ∈ ANKER_EUFY_OUIS) ∧
  (∀ mac, isAnkerEufyDevice (JS.toUpperCase mac) = isAnkerEufyDevice mac ∧
          isAnkerEufyDevice (JS.toLowerCase mac) = isAnkerEufyDevice mac) ∧
  (∀ mac, isAnkerEufyDevice (JS.substring 0 8 mac) = isAnkerEufyDevice mac).
Proof.
  split; [reflexivity|]. split; [|split; [|split]].
  - intros mac. unfold isAnkerEufyDevice. rewrite existsb_exists.
    by setoid_rewrite list_elem_of_In.
  - apply isAnkerEufyDevice_spec.
  - intros mac. split; apply isAnkerEufyDevice_lower.
    + by rewrite <- !substring_toLowerCase, toLowerCase_toUpperCase.
    + by rewrite <- !substring_toLowerCase, toLowerCase_idemp.
  - intros mac. apply isAnkerEufyDevice_lower. by rewrite substring_idemp.
Qed.

(** ** The devices of a scan *)

Lemma includes_elem_of (arr : list Z) x : JS.includes arr x = true ↔ x ∈ arr.
Proof.
  unfold JS.includes. rewrite existsb_exists. setoid_rewrite list_elem_of_In. split.
  - intros (y & Hy & ->%Z.eqb_eq). done.
  - intros Hx. exists x. by rewrite Z.eqb_refl.
Qed.

Lemma elem_of_List_filter {A} (p : A → bool) (l : list A) x :
  x ∈ List.filter p l ↔ x ∈ l ∧ p x = true.
Proof. rewrite !list_elem_of_In. apply filter_In. Qed.

Lemma elem_of_partition {A} (p : A → bool) (l : list A) x :
  x ∈ List.filter p l ++ List.filter (λ y, negb (p y)) l ↔ x ∈ l.
Proof.
  rewrite elem_of_app, !elem_of_List_filter. destruct (p x); simpl; intuition congruence.
Qed.

Lemma elem_of_omap_probe h arpTable (targets : list string) d :
  d ∈ omap (probe h arpTable) targets ↔
  ∃ a, a ∈ targets ∧ kept h a = true ∧ d = device_at h arpTable a.
Proof.
  rewrite list_elem_of_omap. unfold probe. split.
  - intros (a & Ha & Hp). exists a. destruct (kept h a); naive_solver.
  - intros (a & Ha & Hk & ->). exists a. by rewrite Hk.
Qed.

(** Every device that [discoverDevices] returns is the record built for a
    kept address of the scan. *)
Lemma discoverDevices_elem h log :
  ∃ devices log',
    discoverDevices h log = (Ok devices, log') ∧
    ∀ d, d ∈ devices ↔
         ∃ a, a ∈ scan_targets h ∧ kept h a = true ∧ d = device_at h (arp_table h) a.
Proof.
  eexists _, _. split; [apply discoverDevices_run|].
  intros d. by rewrite Array_sort_byLikelihood, elem_of_partition, elem_of_omap_probe.
Qed.

Lemma is_anker_spec (mac : option string) :
  is_anker mac = true ↔ ∃ m, mac = Some m ∧ isAnkerEufyDevice m = true.
Proof.
  unfold is_anker. destruct mac as [[|c m]|]; simpl.
  - split; [done|]. by intros (m & [= <-] & Hm).
  - split; [eauto|]. by intros (m' & [= <-] & Hm).
  - split; [done|]. by intros (m & [=] & _).
Qed.

Lemma open_ports_elem_of h a p :
  p ∈ open_ports h a ↔ p ∈ TUYA_PORTS ∧ port_open h a p = true.
Proof. apply elem_of_List_filter. Qed.

Lemma kept_spec h a :
  kept h a = true ↔ answers h a = true ∧ open_ports h a ≠ [].
Proof.
  unfold kept. rewrite andb_true_iff, negb_true_iff, Nat.eqb_neq.
  destruct (open_ports h a); simpl; intuition congruence.
Qed.

Lemma pingHost_answers h a log : (pingHost h a log).1 = Ok (answers h a).
Proof. by rewrite pingHost_run. Qed.

Lemma scanPort_result h a port timeout log :
  scanPort h a port timeout log = (Ok (connects (net_socket_events h a port timeout)), log).
Proof. unfold scanPort. by rewrite scanPort_run_settled. Qed.

(** C3. For every device in the output of [discoverDevices], the flag
    [isLikelyRoboVac] equals (vendor is defined and port 6668 is among the
    ports); so a true flag implies a defined vendor and port 6668 among the
    open ports. *)
Theorem isLikelyRoboVac_is_vendor_and_control_port (h : host) (log : list string) :
  ∃ devices log',
    discoverDevices h log = (Ok devices, log') ∧
    Forall (λ d,
      isLikelyRoboVac d = bool_decide (is_Some (vendor d)) && JS.includes (ports d) 6668 ∧
      (isLikelyRoboVac d = true → is_Some (vendor d) ∧ 6668 ∈ ports d))
      devices.
Proof.
  destruct (discoverDevices_elem h log) as (devices & log' & Hrun & Hdev).
  exists devices, log'. split; [done|].
  apply Forall_forall. intros d (a & _ & _ & ->)%Hdev. simpl.
  destruct (is_anker (arp_table h !! a)); simpl.
  - split; [done|]. intros Hp. split; [by eexists|]. by apply includes_elem_of.
  - split; [done|]. intros [=].
Qed.

(** C4. Every device in the output of [discoverDevices] answered the ping
    and has a non-empty list of ports, each one a candidate port that
    accepted the connection; an address that does not answer, or that
    answers with no candidate port open, is not the address of any device
    in the output. *)
Theorem devices_answered_with_open_candidate_port (h : host) (log : list string) :
  ∃ devices log',
    discoverDevices h log = (Ok devices, log') ∧
    Forall (λ d,
      (pingHost h (ip d) []).1 = Ok true ∧
      ports d ≠ [] ∧
      ports d ⊆ TUYA_PORTS ∧
      ∀ p, p ∈ ports d → (scanPort h (ip d) p 500 []).1 = Ok true)
      devices ∧
    (∀ a, (pingHost h a []).1 = Ok false → a ∉ ip <$> devices) ∧
    (∀ a, (∀ p, p ∈ TUYA_PORTS → (scanPort h a p 500 []).1 = Ok false) →
          a ∉ ip <$> devices).
Proof.
  destruct (discoverDevices_elem h log) as (devices & log' & Hrun & Hdev).
  exists devices, log'. split; [done|]. split; [|split].
  - apply Forall_forall. intros d (a & _ & [Hans Hopen]%kept_spec & ->)%Hdev. simpl.
    rewrite pingHost_answers, Hans. split; [done|]. split; [done|]. split.
    + intros p Hp. by apply open_ports_elem_of in Hp as [? _].
    + intros p [_ Hp]%open_ports_elem_of. rewrite scanPort_result. simpl.
      by rewrite <- Hp.
  - intros a' Ha (d & -> & (a & _ & [Hans _]%kept_spec & ->)%Hdev)%list_elem_of_fmap.
    simpl in Ha. rewrite pingHost_answers, Hans in Ha. done.
  - intros a' Ha (d & -> & (a & _ & [_ Hopen]%kept_spec & ->)%Hdev)%list_elem_of_fmap.
    simpl in Ha. destruct (open_ports h a) as [|p l] eqn:Hl; [done|].
    assert (p ∈ open_ports h a) as [Hp Ho]%open_ports_elem_of by (rewrite Hl; left).
    specialize (Ha p Hp). rewrite scanPort_result in Ha. simpl in Ha.
    unfold port_open in Ho. congruence.
Qed.

(** C10. For every device in the output of [discoverDevices], the vendor
    is defined exactly when the MAC is defined and its lower-cased
    eight-character prefix is in the fixed list; a defined vendor is the
    label [Anker/Eufy], and it comes with a defined MAC. *)
Theorem vendor_defined_iff_mac_matches (h : host) (log : list string) :
  ∃ devices log',
    discoverDevices h log = (Ok devices, log') ∧
    Forall (λ d,
      (is_Some (vendor d) ↔
       ∃ m, mac d = Some m ∧ JS.toLowerCase (JS.substring 0 8 m) ∈ ANKER_EUFY_OUIS) ∧
      (is_Some (vendor d) → vendor d = Some "Anker/Eufy") ∧
      (is_Some (vendor d) → is_Some (mac d)))
      devices.
Proof.
  destruct (discoverDevices_elem h log) as (devices & log' & Hrun & Hdev).
  exists devices, log'. split; [done|].
  apply Forall_forall. intros d (a & _ & _ & ->)%Hdev. simpl.
  pose proof (is_anker_spec (arp_table h !! a)) as Hspec.
  setoid_rewrite isAnkerEufyDevice_spec in Hspec.
  destruct (is_anker (arp_table h !! a)).
  - destruct Hspec as [(m & Hm & Hin) _]; [done|].
    split; [|split]; [..|intros _; rewrite Hm; by eexists]; [|done].
    split; [eauto|by eexists].
  - split; [|split]; [|by intros [? [=]]..].
    split; [by intros [? [=]]|]. intros Hm. by apply Hspec in Hm.
Qed.

(** On the devices of a scan, the second disjunct of the filter of
    [findRoboVacs] has the value of the flag. *)
Lemma second_disjunct_is_flag h a :
  let d := device_at h (arp_table h) a in
  JS.includes (ports d) 6668 && bool_decide (vendor d = Some "Anker/Eufy")
  = isLikelyRoboVac d.
Proof.
  simpl. destruct (is_anker (arp_table h !! a)); simpl; [|by rewrite andb_false_r].
  by rewrite andb_true_r.
Qed.

Lemma findRoboVacs_run h log :
  ∃ devices log',
    discoverDevices h log = (Ok devices, log') ∧
    findRoboVacs h log = (Ok (List.filter isLikelyRoboVac devices), log').
Proof.
  destruct (discoverDevices_elem h log) as (devices & log' & Hrun & Hdev).
  exists devices, log'. split; [done|].
  unfold findRoboVacs. rewrite (bind_Ok _ _ _ _ _ Hrun), ret_run. do 2 f_equal.
  apply filter_ext_in. intros d (a & _ & _ & ->)%list_elem_of_In%Hdev.
  rewrite second_disjunct_is_flag. apply orb_diag.
Qed.

(** C6. [findRoboVacs] returns the devices of [discoverDevices] whose flag
    [isLikelyRoboVac] is true, in the same order: on every device of the
    scan the second disjunct of its filter (port 6668 open and vendor
    [Anker/Eufy]) has the value of the flag, so it admits no other device. *)
Theorem findRoboVacs_is_filter_on_flag (h : host) (log : list string) :
  ∃ devices log',
    discoverDevices h log = (Ok devices, log') ∧
    findRoboVacs h log = (Ok (List.filter isLikelyRoboVac devices), log') ∧
    Forall (λ d,
      JS.includes (ports d) 6668 && bool_decide (vendor d = Some "Anker/Eufy")
      = isLikelyRoboVac d)
      devices.
Proof.
  destruct (findRoboVacs_run h log) as (devices & log' & Hrun & Hfind).
  exists devices, log'. split; [done|]. split; [done|].
  destruct (discoverDevices_elem h log) as (devices' & log'' & Hrun' & Hdev).
  rewrite Hrun in Hrun'. injection Hrun' as <- <-.
  apply Forall_forall. intros d (a & _ & _ & ->)%Hdev.
  apply second_disjunct_is_flag.
Qed.

Lemma sublist_List_filter {A} (p : A → bool) (l : list A) :
  List.filter p l `sublist_of` l.
Proof.
  induction l as [|x l IH]; simpl; [done|].
  destruct (p x); by constructor.
Qed.

Lemma fmap_ip_omap_probe h arpTable (targets : list string) :
  ip <$> omap (probe h arpTable) targets = List.filter (kept h) targets.
Proof.
  induction targets as [|a targets IH]; csimpl; [done|].
  unfold probe at 1. destruct (kept h a); csimpl; by rewrite IH.
Qed.

(** C5. The output of [discoverDevices] is the stable partition of the
    devices in the order found: the devices with a true flag, then the
    devices with a false flag, each group in the order of discovery, which
    is the order of the scanned addresses; no device with a false flag
    stands before one with a true flag. *)
Theorem discoverDevices_stable_partition (h : host) (log : list string) :
  ∃ found devices log',
    scanNetwork h log = (Ok found, log') ∧
    discoverDevices h log = (Ok devices, log') ∧
    devices = List.filter isLikelyRoboVac found
              ++ List.filter (λ d, negb (isLikelyRoboVac d)) found ∧
    ip <$> found `sublist_of` scan_targets h ∧
    ∀ (i j : nat) a b,
      devices !! i = Some a → devices !! j = Some b →
      isLikelyRoboVac a = false → isLikelyRoboVac b = true → (j < i)%nat.
Proof.
  eexists _, _, _. split; [apply scanNetwork_run|].
  split; [apply discoverDevices_run|].
  split; [apply Array_sort_byLikelihood|]. split.
  - rewrite fmap_ip_omap_probe. apply sublist_List_filter.
  - rewrite Array_sort_byLikelihood.
    set (found := omap (probe h (arp_table h)) (scan_targets h)).
    intros i j a b Hi Hj Ha Hb.
    destruct (decide (i < length (List.filter isLikelyRoboVac found))%nat) as [Hlt|Hge].
    { rewrite lookup_app_l in Hi by done.
      apply list_elem_of_lookup_2, elem_of_List_filter in Hi as [_ Hi]. congruence. }
    destruct (decide (j < length (List.filter isLikelyRoboVac found))%nat) as [|Hge'];
      [lia|].
    rewrite lookup_app_r in Hj by lia.
    apply list_elem_of_lookup_2, elem_of_List_filter in Hj as [_ Hj].
    rewrite Hb in Hj. done.
Qed.

(** A failed neighbour lookup leaves the table empty. *)
Lemma getArpTable_failure h log e :
  child_process_execSync h "arp -a" = inr e → (getArpTable h log).1 = Ok ∅.
Proof.
  intros He. rewrite getArpTable_run. simpl. unfold arp_table. rewrite He.
  by destruct (arp_supported h).
Qed.

Lemma arp_parse_no_match h platform arpOutput :
  (∀ pattern line, regexp_match h pattern line = None) →
  arp_parse h platform arpOutput = ∅.
Proof.
  intros Hno. unfold arp_parse.
  induction (JS.split "010" arpOutput) as [|line lines IH]; simpl; [done|].
  assert (arp_line_match h platform line = None) as ->; [|done].
  unfold arp_line_match. rewrite !Hno. by repeat case_match.
Qed.

(** C9. With an empty neighbour table, a scanned address that answers the
    ping and accepts a connection on port 6668 is in the output of
    [discoverDevices], with MAC and vendor undefined and the flag false. *)
Theorem empty_neighbor_table_keeps_device (h : host) (log : list string) (a : string) :
  (getArpTable h log).1 = Ok ∅ →
  a ∈ scan_targets h →
  (pingHost h a []).1 = Ok true →
  (scanPort h a 6668 500 []).1 = Ok true →
  ∃ devices log' d,
    discoverDevices h log = (Ok devices, log') ∧
    d ∈ devices ∧
    ip d = a ∧ mac d = None ∧ vendor d = None ∧ isLikelyRoboVac d = false ∧
    6668 ∈ ports d.
Proof.
  rewrite getArpTable_run, pingHost_answers, scanPort_result. simpl.
  intros [= Harp] Ha [= Hans] [= Hopen].
  destruct (discoverDevices_elem h log) as (devices & log' & Hrun & Hdev).
  assert (6668 ∈ open_ports h a) as Hport.
  { apply open_ports_elem_of. split; [left|done]. }
  exists devices, log', (device_at h (arp_table h) a). split; [done|]. split.
  - apply Hdev. exists a. split; [done|]. split; [|done].
    apply kept_spec. split; [done|]. intros Hnil. rewrite Hnil in Hport.
    by apply not_elem_of_nil in Hport.
  - simpl. by rewrite Harp, lookup_empty.
Qed.

Lemma empty_neighbor_table_keeps_device_witness :
  let h := sample_host "192.168.1.17" (inr "ENOENT") in
  ((getArpTable h []).1 = Ok ∅ ∧
   "192.168.1.50" ∈ scan_targets h ∧
   (pingHost h "192.168.1.50" []).1 = Ok true ∧
   (scanPort h "192.168.1.50" 6668 500 []).1 = Ok true) ∧
  ∃ devices log' d,
    discoverDevices h [] = (Ok devices, log') ∧
    d ∈ devices ∧
    ip d = "192.168.1.50" ∧ mac d = None ∧ vendor d = None ∧
    isLikelyRoboVac d = false ∧ 6668 ∈ ports d.
Proof.
  intros h.
  assert ("192.168.1.50" ∈ scan_targets h) as Hin.
  { apply list_elem_of_In. vm_compute. do 49 right. left. reflexivity. }
  split; [split; [reflexivity|split; [exact Hin|split; reflexivity]]|].
  apply (empty_neighbor_table_keeps_device h [] "192.168.1.50");
    [reflexivity|exact Hin|reflexivity|reflexivity].
Defined.

(** C7. The probes and the scan return under every behaviour of the host:
    [pingHost] returns, and returns false when the ping command fails or
    times out; [scanPort] returns, and returns false when the socket reports
    an error or nothing before the deadline; [getArpTable] returns, with
    the empty table when the command fails, when the platform has no
    parser, or when no line matches; [discoverDevices] and [findRoboVacs]
    return a list and never throw. *)
Theorem probes_and_scan_never_throw (h : host) (log : list string) :
  (∀ a, ∃ alive,
     pingHost h a log = (Ok alive, log ++ [pingCommand h a]) ∧
     (∀ e, child_process_execSync h (pingCommand h a) = inr e → alive = false)) ∧
  (∀ a port timeout, ∃ open,
     scanPort h a port timeout log = (Ok open, log) ∧
     (net_socket_events h a port timeout = [] → open = false) ∧
     (∀ events, net_socket_events h a port timeout = SockError :: events →
                open = false)) ∧
  (∃ table log',
     getArpTable h log = (Ok table, log') ∧
     (∀ e, child_process_execSync h "arp -a" = inr e → table = ∅) ∧
     (arp_supported h = false → table = ∅) ∧
     ((∀ pattern line, regexp_match h pattern line = None) → table = ∅)) ∧
  (∃ devices log', discoverDevices h log = (Ok devices, log')) ∧
  (∃ devices log', findRoboVacs h log = (Ok devices, log')).
Proof.
  split; [|split; [|split; [|split]]].
  - intros a. exists (answers h a). split; [apply pingHost_run|].
    intros e He. unfold answers. by rewrite He.
  - intros a port timeout. eexists. split; [apply scanPort_result|].
    split; [by intros ->|]. by intros events ->.
  - exists (arp_table h), (log ++ arp_commands h). split; [apply getArpTable_run|].
    unfold arp_table. split; [|split].
    + intros e ->. by destruct (arp_supported h).
    + by intros ->.
    + intros Hno. destruct (arp_supported h); [|done].
      destruct (child_process_execSync h "arp -a"); [|done].
      by apply arp_parse_no_match.
  - eexists _, _. apply discoverDevices_run.
  - destruct (findRoboVacs_run h log) as (devices & log' & _ & Hfind).
    eauto.
Qed.

(** ** Splitting addresses and ranges *)

Section Split.

Lemma append_nil_r s : s +:+ "" = s.
Proof. induction s as [|c s IH]; [done|]. change (String c (s +:+ "") = String c s). by rewrite IH. Qed.

Lemma append_cons c s t : String c s +:+ t = String c (s +:+ t).
Proof. reflexivity. Qed.

(** A piece without the separator joins the first piece of what
    follows. *)
Lemma split_app sep p s piece rest :
  lacks sep p = true → JS.split sep s = piece :: rest →
  JS.split sep (p +:+ s) = (p +:+ piece) :: rest.
Proof.
  intros Hp Hs. induction p as [|c p IH]; [done|].
  simpl in Hp. apply andb_true_iff in Hp as [Hc Hp].
  rewrite append_cons. simpl. apply negb_true_iff in Hc. rewrite Hc.
  by rewrite (IH Hp).
Qed.

Lemma split_sep sep s : JS.split sep (String sep s) = "" :: JS.split sep s.
Proof. simpl. by rewrite Ascii.eqb_refl. Qed.

Lemma split_app_sep sep p s :
  lacks sep p = true → JS.split sep (p +:+ String sep s) = p :: JS.split sep s.
Proof.
  intros Hp. rewrite (split_app sep p _ "" (JS.split sep s) Hp (split_sep sep s)).
  by rewrite append_nil_r.
Qed.

Lemma lacks_app sep s t : lacks sep (s +:+ t) = lacks sep s && lacks sep t.
Proof.
  induction s as [|c s IH]; [done|].
  rewrite append_cons. simpl. by rewrite IH, andb_assoc.
Qed.

(** The decimal form of a number has only digits. *)
Lemma lacks_show sep n :
  (N_of_ascii sep < 48)%N → lacks sep (JS.show n) = true.
Proof.
  intros Hsep. unfold JS.show.
  assert (∀ c, (48 ≤ N_of_ascii c)%N → Ascii.eqb c sep = false) as Hne.
  { intros c Hc. apply Ascii.eqb_neq. intros ->. lia. }
  induction (Nat.to_uint n) as [|d IH|d IH|d IH|d IH|d IH|d IH|d IH|d IH|d IH|d IH];
    cbn [NilEmpty.string_of_uint lacks]; [done|..];
    rewrite Hne, IH; try done; vm_compute; discriminate.
Qed.

Lemma show_inj : Inj (=) (=) JS.show.
Proof.
  intros i j Heq. unfold JS.show in Heq.
  apply Unsigned.to_uint_inj.
  apply (f_equal NilEmpty.uint_of_string) in Heq.
  rewrite !NilEmpty.usu in Heq. by injection Heq.
Qed.

(** The base of a well-formed range and its octets. *)
Lemma split_range a b c d len :
  lacks "/" a = true → lacks "/" b = true → lacks "/" c = true → lacks "/" d = true →
  JS.split "/" (a +:+ "." +:+ b +:+ "." +:+ c +:+ "." +:+ d +:+ "/" +:+ len)
  = (a +:+ "." +:+ b +:+ "." +:+ c +:+ "." +:+ d) :: JS.split "/" len.
Proof.
  intros Ha Hb Hc Hd.
  replace (a +:+ "." +:+ b +:+ "." +:+ c +:+ "." +:+ d +:+ "/" +:+ len)
    with ((a +:+ "." +:+ b +:+ "." +:+ c +:+ "." +:+ d) +:+ String "/" len).
  - apply split_app_sep. rewrite !lacks_app, Ha, Hb, Hc, Hd. done.
  - assert (∀ x y z, (x +:+ y) +:+ z = x +:+ y +:+ z) as Hassoc.
    { intros x y z. induction x as [|e x IH]; [done|].
      rewrite !append_cons. by rewrite IH. }
    by rewrite !Hassoc.
Qed.

Lemma split_base a b c d :
  lacks "." a = true → lacks "." b = true → lacks "." c = true →
  JS.split "." (a +:+ "." +:+ b +:+ "." +:+ c +:+ "." +:+ d)
  = a :: b :: c :: JS.split "." d.
Proof.
  intros Ha Hb Hc.
  change (a +:+ "." +:+ b +:+ "." +:+ c +:+ "." +:+ d)
    with (a +:+ String "." (b +:+ String "." (c +:+ String "." d))).
  by rewrite !split_app_sep.
Qed.

Lemma host_addresses_cons a b c rest :
  host_addresses (a :: b :: c :: rest)
  = map (λ i, a +:+ "." +:+ b +:+ "." +:+ c +:+ "." +:+ JS.show i) (seq 1 254).
Proof. reflexivity. Qed.

Lemma host_addresses_NoDup ipParts : NoDup (host_addresses ipParts).
Proof.
  unfold host_addresses. apply (NoDup_fmap_2_strong _); [|apply NoDup_seq].
  intros i j _ _ Heq. repeat apply String.app_inj in Heq. by apply show_inj.
Qed.

End Split.

(** ** NetworkRangeResolver *)

(** An external IPv4 address that begins with [192.168.]: the range names
    its third octet. *)
Lemma range_of_address_192_168 c rest :
  lacks "." c = true →
  range_of_address {| family := "IPv4"; internal := false;
                      address := "192.168." +:+ c +:+ "." +:+ rest |}
  = Some ("192.168." +:+ c +:+ ".0/24").
Proof.
  intros Hc. unfold range_of_address. cbn [family internal address].
  change ("192.168." +:+ c +:+ "." +:+ rest)
    with ("192" +:+ String "." ("168" +:+ String "." (c +:+ String "." rest))).
  by rewrite !split_app_sep.
Qed.

(** An external IPv4 address [172.n. ...] with [n] from 16 to 31: the range
    is the /16. *)
Lemma range_of_address_172 (n : nat) rest :
  (16 ≤ n ≤ 31)%nat →
  range_of_address {| family := "IPv4"; internal := false;
                      address := "172." +:+ JS.show n +:+ "." +:+ rest |}
  = Some ("172." +:+ JS.show n +:+ ".0.0/16").
Proof.
  intros Hn. unfold range_of_address. cbn [family internal address].
  change ("172." +:+ JS.show n +:+ "." +:+ rest)
    with ("172" +:+ String "." (JS.show n +:+ String "." rest)).
  rewrite !split_app_sep by (done || by apply lacks_show).
  assert (n ∈ seq 16 16) as Hin by (apply elem_of_seq; lia).
  simpl in Hin. clear Hn.
  repeat (apply elem_of_cons in Hin as [->|Hin]; [reflexivity|]).
  by apply not_elem_of_nil in Hin.
Qed.

(** An external IPv4 address that begins with [10.]: the range is the
    constant [10.0.0.0/24], whatever the other octets. *)
Lemma range_of_address_10 rest :
  range_of_address {| family := "IPv4"; internal := false;
                      address := "10." +:+ rest |}
  = Some "10.0.0.0/24".
Proof.
  unfold range_of_address. cbn [family internal address].
  change ("10." +:+ rest) with ("10" +:+ String "." rest).
  by rewrite split_app_sep.
Qed.

Lemma range_of_addresses_app addrs addrs' :
  range_of_addresses (addrs ++ addrs')
  = match range_of_addresses addrs with
    | Some r => Some r
    | None => range_of_addresses addrs'
    end.
Proof.
  induction addrs as [|addr addrs IH]; simpl; [done|].
  by destruct (range_of_address addr).
Qed.

Lemma range_of_interfaces_addresses ifs :
  range_of_interfaces ifs = range_of_addresses (addresses ifs).
Proof.
  induction ifs as [|[name [addrs|]] ifs IH]; simpl; [done|..].
  - rewrite range_of_addresses_app, IH. done.
  - done.
Qed.

(** The resolver answers for the first address that one of its three
    patterns accepts. *)
Lemma getLocalNetworkRange_first ifs before addr after r :
  addresses ifs = before ++ addr :: after →
  Forall (λ a, range_of_address a = None) before →
  range_of_address addr = Some r →
  getLocalNetworkRange ifs = r.
Proof.
  intros Hifs Hbefore Haddr. unfold getLocalNetworkRange.
  rewrite range_of_interfaces_addresses, Hifs, range_of_addresses_app.
  assert (range_of_addresses before = None) as ->.
  { clear Hifs. induction Hbefore as [|a before Ha _ IH]; simpl; [done|].
    by rewrite Ha. }
  simpl. by rewrite Haddr.
Qed.

(** C2. On a host whose first external IPv4 address is [10.1.2.3],
    [getLocalNetworkRange] returns [10.0.0.0/24], which is not the /24 of
    that address; every address that begins with [10.] gets that same
    constant. *)
Theorem getLocalNetworkRange_10_is_constant :
  getLocalNetworkRange (sample_interfaces "10.1.2.3") = "10.0.0.0/24" ∧
  getLocalNetworkRange (sample_interfaces "10.1.2.3") ≠ "10.1.2.0/24" ∧
  ∀ rest,
    range_of_address {| family := "IPv4"; internal := false;
                        address := "10." +:+ rest |}
    = Some "10.0.0.0/24".
Proof. split; [reflexivity|]. split; [discriminate|]. apply range_of_address_10. Qed.

(** ** The addresses a scan visits *)

Lemma strip_prefix_app p s : strip_prefix p (p +:+ s) = Some s.
Proof.
  induction p as [|c p IH]; [by destruct s|].
  rewrite append_cons. simpl. by rewrite Ascii.eqb_refl.
Qed.

Lemma pingCommand_prefix h a : pingCommand h a = ping_prefix h +:+ a.
Proof. unfold pingCommand, ping_prefix. by destruct (String.eqb (os_platform h) "win32"). Qed.

Lemma pinged_hosts_scan h (targets : list string) :
  pinged_hosts h (arp_commands h ++ map (pingCommand h) targets) = targets.
Proof.
  unfold pinged_hosts. rewrite omap_app.
  assert (omap (strip_prefix (ping_prefix h)) (arp_commands h) = []) as ->.
  { unfold arp_commands, ping_prefix.
    by destruct (arp_supported h), (String.eqb (os_platform h) "win32"). }
  rewrite app_nil_l.
  induction targets as [|a targets IH]; csimpl; [done|].
  by rewrite pingCommand_prefix, strip_prefix_app, IH.
Qed.

(** C1. A scan pings exactly the 254 addresses made of the first three
    octets of the base of the resolved range and a last octet from 1 to
    254: the record of the ping commands is that list, it has 254 entries
    without repetition, and the batches of twenty put end to end are the
    list again.  For a range [a.b.c.d/len] the addresses are [a.b.c.1] to
    [a.b.c.254]; for the range [172.n.0.0/16] they are [172.n.0.1] to
    [172.n.0.254] and no others. *)
Theorem discoverDevices_pings_254_hosts (h : host) (log : list string) :
  ∃ baseIp rest devices trace,
    JS.split "/" (getLocalNetworkRange (os_networkInterfaces h)) = baseIp :: rest ∧
    discoverDevices h log = (Ok devices, log ++ trace) ∧
    pinged_hosts h trace = host_addresses (JS.split "." baseIp) ∧
    length (pinged_hosts h trace) = 254%nat ∧
    NoDup (pinged_hosts h trace) ∧
    concat (batches (host_addresses (JS.split "." baseIp))
                    (batch_offsets 0 (length (host_addresses (JS.split "." baseIp)))))
    = pinged_hosts h trace ∧
    (∀ a b c d len,
       lacks "." a && lacks "." b && lacks "." c = true →
       lacks "/" a && lacks "/" b && lacks "/" c && lacks "/" d = true →
       getLocalNetworkRange (os_networkInterfaces h)
       = a +:+ "." +:+ b +:+ "." +:+ c +:+ "." +:+ d +:+ "/" +:+ len →
       pinged_hosts h trace
       = map (λ i, a +:+ "." +:+ b +:+ "." +:+ c +:+ "." +:+ JS.show i) (seq 1 254)) ∧
    (∀ n : nat,
       getLocalNetworkRange (os_networkInterfaces h)
       = "172." +:+ JS.show n +:+ ".0.0/16" →
       pinged_hosts h trace
       = map (λ i, "172." +:+ JS.show n +:+ ".0." +:+ JS.show i) (seq 1 254)).
Proof.
  destruct (split_nonempty "/" (getLocalNetworkRange (os_networkInterfaces h)))
    as (baseIp & rest & Hsplit).
  exists baseIp, rest. eexists _, _. split; [done|].
  split; [apply discoverDevices_run|].
  rewrite pinged_hosts_scan. unfold scan_targets, base_of. rewrite Hsplit.
  split; [done|]. split; [apply host_addresses_length|].
  split; [apply host_addresses_NoDup|]. split; [apply batches_all|].
  assert (∀ a b c d len,
    lacks "." a && lacks "." b && lacks "." c = true →
    lacks "/" a && lacks "/" b && lacks "/" c && lacks "/" d = true →
    getLocalNetworkRange (os_networkInterfaces h)
    = a +:+ "." +:+ b +:+ "." +:+ c +:+ "." +:+ d +:+ "/" +:+ len →
    host_addresses (JS.split "." baseIp)
    = map (λ i, a +:+ "." +:+ b +:+ "." +:+ c +:+ "." +:+ JS.show i) (seq 1 254))
    as Hgeneral.
  { intros a b c d len Hdot Hslash Hrange.
    repeat (apply andb_true_iff in Hdot as [Hdot ?]).
    repeat (apply andb_true_iff in Hslash as [Hslash ?]).
    rewrite Hrange, split_range in Hsplit by done. injection Hsplit as <- _.
    by rewrite split_base, host_addresses_cons. }
  split; [done|].
  intros n Hrange.
  apply (Hgeneral "172" (JS.show n) "0" "0" "16"); [| |done].
  - by rewrite lacks_show.
  - by rewrite lacks_show.
Qed.

(** On a host with the address [172.20.5.7] the resolver declares
    [172.20.0.0/16], and the scan pings [172.20.0.1] to [172.20.0.254]. *)
Lemma discoverDevices_pings_254_hosts_witness :
  let h := sample_host "172.20.5.7" (inr "ENOENT") in
  getLocalNetworkRange (os_networkInterfaces h) = "172." +:+ JS.show 20 +:+ ".0.0/16" ∧
  ∃ devices trace,
    discoverDevices h [] = (Ok devices, trace) ∧
    pinged_hosts h trace
    = map (λ i, "172." +:+ JS.show 20 +:+ ".0." +:+ JS.show i) (seq 1 254) ∧
    length (pinged_hosts h trace) = 254%nat.
Proof.
  intros h. split; [reflexivity|].
  destruct (discoverDevices_pings_254_hosts h [])
    as (baseIp & rest & devices & trace & _ & Hrun & _ & Hlen & _ & _ & _ & Hslice).
  exists devices, trace. split; [exact Hrun|]. split; [|exact Hlen].
  apply (Hslice 20%nat). reflexivity.
Defined.

(** On a host where the neighbour lookup and every ping fail, the probes
    return false, the table is empty and the scan returns. *)
Lemma probes_and_scan_never_throw_witness :
  let h := sample_host "192.168.1.17" (inr "ENOENT") in
  (child_process_execSync h (pingCommand h "192.168.1.1") = inr "Command failed" ∧
   net_socket_events h "192.168.1.51" 6668 500 = [] ∧
   net_socket_events h "192.168.1.60" 6668 500 = [SockError] ∧
   child_process_execSync h "arp -a" = inr "ENOENT") ∧
  pingHost h "192.168.1.1" [] = (Ok false, ["ping -c 1 -W 1 192.168.1.1"]) ∧
  scanPort h "192.168.1.51" 6668 500 [] = (Ok false, []) ∧
  scanPort h "192.168.1.60" 6668 500 [] = (Ok false, []) ∧
  (getArpTable h []).1 = Ok ∅.
Proof.
  intros h. split; [repeat split|].
  destruct (probes_and_scan_never_throw h []) as (Hping & Hscan & Harp & _ & _).
  split; [|split; [|split]].
  - destruct (Hping "192.168.1.1") as (alive & Hrun & Hfail).
    rewrite (Hfail "Command failed" eq_refl) in Hrun. exact Hrun.
  - destruct (Hscan "192.168.1.51" 6668 500) as (open & Hrun & Hnone & _).
    rewrite (Hnone eq_refl) in Hrun. exact Hrun.
  - destruct (Hscan "192.168.1.60" 6668 500) as (open & Hrun & _ & Herr).
    rewrite (Herr [] eq_refl) in Hrun. exact Hrun.
  - destruct Harp as (table & log' & Hrun & Hfail & _).
    rewrite (Hfail "ENOENT" eq_refl) in Hrun. by rewrite Hrun.
Defined.

(** ** The scenarios of the specification *)

Example scenario_known_vendor :
  (discoverDevices (sample_host "192.168.1.17" (inl sample_arp)) []).1
  = Ok [ {| ip := "192.168.1.50"; mac := Some "34:ea:34:aa:bb:cc";
            vendor := Some "Anker/Eufy"; ports := [6668];
            isLikelyRoboVac := true |};
         {| ip := "192.168.1.60"; mac := None; vendor := None; ports := [443];
            isLikelyRoboVac := false |} ].
Proof. vm_compute. reflexivity. Qed.

Example scenario_empty_table :
  (discoverDevices (sample_host "192.168.1.17" (inr "ENOENT")) []).1
  = Ok [ {| ip := "192.168.1.50"; mac := None; vendor := None; ports := [6668];
            isLikelyRoboVac := false |};
         {| ip := "192.168.1.60"; mac := None; vendor := None; ports := [443];
            isLikelyRoboVac := false |} ].
Proof. vm_compute. reflexivity. Qed.

Example scenario_candidates :
  (findRoboVacs (sample_host "192.168.1.17" (inl sample_arp)) []).1
  = Ok [ {| ip := "192.168.1.50"; mac := Some "34:ea:34:aa:bb:cc";
            vendor := Some "Anker/Eufy"; ports := [6668];
            isLikelyRoboVac := true |} ].
Proof. vm_compute. reflexivity. Qed.

Example scenario_ranges :
  getLocalNetworkRange (sample_interfaces "192.168.7.33") = "192.168.7.0/24" ∧
  getLocalNetworkRange (sample_interfaces "172.20.5.7") = "172.20.0.0/16" ∧
  getLocalNetworkRange (sample_interfaces "172.32.5.7") = "192.168.1.0/24" ∧
  getLocalNetworkRange (sample_interfaces "8.8.8.8") = "192.168.1.0/24" ∧
  getLocalNetworkRange [] = "192.168.1.0/24".
Proof. repeat split. Qed.

(** * Further properties of the scan *)

(** ** Decimal octets *)

Lemma digits_of_uint (d : Decimal.uint) (a : nat) :
  JS.digits 10 (Some (Z.of_nat a)) (NilEmpty.string_of_uint d)
  = Some (Z.of_nat (Nat.of_uint_acc d a)).
Proof.
  revert a. induction d as [|d IH|d IH|d IH|d IH|d IH|d IH|d IH|d IH|d IH|d IH];
    intros a; [done|..];
    cbn [NilEmpty.string_of_uint JS.digits Nat.of_uint_acc];
    match goal with
    | |- context [JS.digit_value ?c] =>
        let v := eval vm_compute in (JS.digit_value c) in
        change (JS.digit_value c) with v
    end;
    cbn [Z.ltb Z.compare Pos.compare Pos.compare_cont default];
    rewrite <- IH; do 2 f_equal; rewrite Nat.tail_mul_spec; unfold id; lia.
Qed.

(** A string of decimal digits is read in base ten from its first
    character. *)
Lemma parseInt_decimal (u : Decimal.uint) :
  u ≠ Decimal.Nil →
  JS.parseInt (Some (NilEmpty.string_of_uint u))
  = Z.mul 1 <$> JS.digits 10 (Some 0) (NilEmpty.string_of_uint u).
Proof.
  destruct u as [|d|d|d|d|d|d|d|d|d|d]; intros Hu; [done| |reflexivity..].
  by destruct d.
Qed.

(** Reading back a printed number gives the number. *)
Lemma parseInt_show (n : nat) : JS.parseInt (Some (JS.show n)) = Some (Z.of_nat n).
Proof.
  unfold JS.show. rewrite parseInt_decimal.
  - rewrite (digits_of_uint _ 0). simpl. f_equal.
    change (Nat.of_uint_acc (Nat.to_uint n) 0) with (Nat.of_uint (Nat.to_uint n)).
    rewrite Unsigned.of_to. by destruct (Z.of_nat n).
  - intros Hn. assert (n = 0%nat) as -> by (by rewrite <- (Unsigned.of_to n), Hn).
    done.
Qed.

(** ** NetworkRangeResolver: the accepted addresses *)

Lemma range_of_address_skipped addr :
  family addr ≠ "IPv4" ∨ internal addr = true → range_of_address addr = None.
Proof.
  intros [Hf|Hi]; unfold range_of_address.
  - apply String.eqb_neq in Hf. by rewrite Hf.
  - by rewrite Hi, andb_false_r.
Qed.

Lemma range_of_addresses_none addrs :
  Forall (λ a, range_of_address a = None) addrs → range_of_addresses addrs = None.
Proof. induction 1 as [|a addrs Ha _ IH]; simpl; [done|]. by rewrite Ha. Qed.

(** X1. When every address of the host is internal or not IPv4, the
    resolver answers the default range [192.168.1.0/24]. *)
Theorem getLocalNetworkRange_default (ifs : interfaces_t) :
  Forall (λ a, family a ≠ "IPv4" ∨ internal a = true) (addresses ifs) →
  getLocalNetworkRange ifs = "192.168.1.0/24".
Proof.
  intros Hall. unfold getLocalNetworkRange.
  rewrite range_of_interfaces_addresses, range_of_addresses_none; [done|].
  eapply Forall_impl; [exact Hall|]. apply range_of_address_skipped.
Qed.

Lemma getLocalNetworkRange_default_witness :
  let ifs := [("lo", Some [{| family := "IPv4"; internal := true; address := "127.0.0.1" |}]);
              ("utun0", None);
              ("eth0", Some [{| family := "IPv6"; internal := false; address := "fe80::1" |}])] in
  Forall (λ a, family a ≠ "IPv4" ∨ internal a = true) (addresses ifs) ∧
  getLocalNetworkRange ifs = "192.168.1.0/24".
Proof.
  intros ifs.
  assert (Forall (λ a, family a ≠ "IPv4" ∨ internal a = true) (addresses ifs)) as Hall.
  { constructor; [right; reflexivity|]. constructor; [left; discriminate|]. constructor. }
  split; [exact Hall|]. exact (getLocalNetworkRange_default ifs Hall).
Defined.

(** X2. The first address that the resolver accepts decides: when it is an
    external IPv4 address [192.168.c. ...], the range is [192.168.c.0/24],
    whatever interfaces follow. *)
Theorem getLocalNetworkRange_192_168 (ifs : interfaces_t) before after c rest :
  addresses ifs
  = before ++ {| family := "IPv4"; internal := false;
                 address := "192.168." +:+ c +:+ "." +:+ rest |} :: after →
  Forall (λ a, range_of_address a = None) before →
  lacks "." c = true →
  getLocalNetworkRange ifs = "192.168." +:+ c +:+ ".0/24".
Proof.
  intros Hifs Hbefore Hc.
  eapply getLocalNetworkRange_first; [exact Hifs|exact Hbefore|].
  by apply range_of_address_192_168.
Qed.

Lemma getLocalNetworkRange_192_168_witness :
  let ifs := sample_interfaces "192.168.7.33" ++ sample_interfaces "10.1.2.3" in
  getLocalNetworkRange ifs = "192.168.7.0/24".
Proof.
  intros ifs.
  apply (getLocalNetworkRange_192_168 ifs
           [{| family := "IPv4"; internal := true; address := "127.0.0.1" |};
            {| family := "IPv6"; internal := false; address := "fe80::1" |}]
           (addresses (sample_interfaces "10.1.2.3")) "7" "33").
  - reflexivity.
  - repeat constructor.
  - reflexivity.
Defined.

(** An external IPv4 address [172.n. ...] is accepted exactly for [n] from
    16 to 31. *)
Lemma range_of_address_172_bounds (n : nat) rest :
  range_of_address {| family := "IPv4"; internal := false;
                      address := "172." +:+ JS.show n +:+ "." +:+ rest |}
  = if (16 <=? n)%nat && (n <=? 31)%nat
    then Some ("172." +:+ JS.show n +:+ ".0.0/16")
    else None.
Proof.
  unfold range_of_address. cbn [family internal address].
  change ("172." +:+ JS.show n +:+ "." +:+ rest)
    with ("172" +:+ String "." (JS.show n +:+ String "." rest)).
  rewrite !split_app_sep by (done || by apply lacks_show).
  change ((?a :: ?b :: ?l) !! 1%nat) with (Some b).
  change ((?a :: ?l) !! 0%nat) with (Some a).
  rewrite parseInt_show. change (JS.tpl (Some ?s)) with s.
  unfold JS.between.
  replace ((16 <=? Z.of_nat n) && (Z.of_nat n <=? 31))
    with ((16 <=? n)%nat && (n <=? 31)%nat); [done|].
  f_equal.
  - destruct (Nat.leb_spec 16 n), (Z.leb_spec 16 (Z.of_nat n)); done || lia.
  - destruct (Nat.leb_spec n 31), (Z.leb_spec (Z.of_nat n) 31); done || lia.
Qed.

(** X3. When the first address that the resolver reaches is an external
    IPv4 address [172.n. ...], the range is [172.n.0.0/16] for [n] from 16
    to 31; for any other [n] the address is passed over and the addresses
    after it decide. *)
Theorem getLocalNetworkRange_172 (ifs : interfaces_t) before after (n : nat) rest :
  addresses ifs
  = before ++ {| family := "IPv4"; internal := false;
                 address := "172." +:+ JS.show n +:+ "." +:+ rest |} :: after →
  Forall (λ a, range_of_address a = None) before →
  getLocalNetworkRange ifs
  = if (16 <=? n)%nat && (n <=? 31)%nat
    then "172." +:+ JS.show n +:+ ".0.0/16"
    else default "192.168.1.0/24" (range_of_addresses after).
Proof.
  intros Hifs Hbefore. unfold getLocalNetworkRange.
  rewrite range_of_interfaces_addresses, Hifs, range_of_addresses_app.
  rewrite range_of_addresses_none by done.
  cbn [range_of_addresses]. rewrite range_of_address_172_bounds.
  by destruct ((16 <=? n)%nat && (n <=? 31)%nat).
Qed.

Lemma getLocalNetworkRange_172_witness :
  getLocalNetworkRange (sample_interfaces "172.31.255.255") = "172.31.0.0/16" ∧
  getLocalNetworkRange (sample_interfaces "172.32.0.1") = "192.168.1.0/24" ∧
  getLocalNetworkRange (sample_interfaces "172.15.0.1" ++ sample_interfaces "192.168.7.33")
  = "192.168.7.0/24".
Proof.
  split; [|split].
  - apply (getLocalNetworkRange_172 (sample_interfaces "172.31.255.255")
             [{| family := "IPv4"; internal := true; address := "127.0.0.1" |};
              {| family := "IPv6"; internal := false; address := "fe80::1" |}]
             [] 31 "255.255"); [reflexivity|repeat constructor].
  - apply (getLocalNetworkRange_172 (sample_interfaces "172.32.0.1")
             [{| family := "IPv4"; internal := true; address := "127.0.0.1" |};
              {| family := "IPv6"; internal := false; address := "fe80::1" |}]
             [] 32 "0.1"); [reflexivity|repeat constructor].
  - apply (getLocalNetworkRange_172
             (sample_interfaces "172.15.0.1" ++ sample_interfaces "192.168.7.33")
             [{| family := "IPv4"; internal := true; address := "127.0.0.1" |};
              {| family := "IPv6"; internal := false; address := "fe80::1" |}]
             (addresses (sample_interfaces "192.168.7.33")) 15 "0.1");
      [reflexivity|repeat constructor].
Defined.

(** ** NeighborTableReader: what the table holds *)

Lemma lower_ascii_dash c : Ascii.eqb (JS.lower_ascii c) "-" = Ascii.eqb c "-".
Proof. by destruct c as [[] [] [] [] [] [] [] []]. Qed.

Lemma lacks_dash_toLowerCase s : lacks "-" (JS.toLowerCase s) = lacks "-" s.
Proof. induction s as [|c s IH]; simpl; [done|]. by rewrite lower_ascii_dash, IH. Qed.

Lemma lacks_replaceAll s : lacks "-" (JS.replaceAll "-" ":" s) = true.
Proof.
  induction s as [|c s IH]; [done|].
  cbn [JS.replaceAll lacks]. rewrite IH, andb_true_r.
  by destruct c as [[] [] [] [] [] [] [] []].
Qed.

(** The entry that one line of the output contributes. *)
Lemma arp_parse_fold h platform (P : string → string → Prop) lines
    (table : gmap string string) :
  (∀ line a m, arp_line_match h platform line = Some (a, m) → P a (JS.toLowerCase m)) →
  map_Forall P table →
  map_Forall P
    (fold_left
       (λ arpMap line,
         match arp_line_match h platform line with
         | Some (m1, m2) => <[m1 := JS.toLowerCase m2]> arpMap
         | None => arpMap
         end)
       lines table).
Proof.
  intros Hline. revert table. induction lines as [|line lines IH]; intros table Ht; [done|].
  simpl. apply IH. destruct (arp_line_match h platform line) as [[a m]|] eqn:Hm; [|done].
  apply map_Forall_insert_2; [|done]. by eapply Hline.
Qed.

(** X4. Every MAC address in the table of [getArpTable] is in lower case,
    and on Windows it has no dash left: the dashes were replaced by
    colons. *)
Theorem getArpTable_normalises_mac (h : host) (log : list string) :
  ∃ table log',
    getArpTable h log = (Ok table, log') ∧
    map_Forall (λ _ m,
      JS.toLowerCase m = m ∧
      (os_platform h = "win32" → lacks "-" m = true))
      table.
Proof.
  exists (arp_table h), (log ++ arp_commands h). split; [apply getArpTable_run|].
  unfold arp_table. destruct (arp_supported h); [|apply map_Forall_empty].
  destruct (child_process_execSync h "arp -a") as [out|]; [|apply map_Forall_empty].
  unfold arp_parse. apply arp_parse_fold; [|apply map_Forall_empty].
  intros line a m Hm. split; [apply toLowerCase_idemp|].
  intros Hwin. rewrite lacks_dash_toLowerCase.
  unfold arp_line_match in Hm. rewrite Hwin in Hm. simpl in Hm.
  destruct (regexp_match h Win32Arp line) as [[m1 m2]|]; [|done].
  injection Hm as _ <-. apply lacks_replaceAll.
Qed.

Lemma arp_fold_lookup h platform a lines (table : gmap string string) :
  fold_left
    (λ arpMap line,
      match arp_line_match h platform line with
      | Some (m1, m2) => <[m1 := JS.toLowerCase m2]> arpMap
      | None => arpMap
      end)
    lines table !! a
  = match last (arp_entries h platform a lines) with
    | Some m => Some m
    | None => table !! a
    end.
Proof.
  revert table. induction lines as [|line lines IH]; intros table; [done|].
  simpl. rewrite IH. unfold arp_entries at 2. csimpl. fold (arp_entries h platform a lines).
  destruct (arp_line_match h platform line) as [[m1 m2]|]; [|done].
  destruct (decide (m1 = a)) as [->|Hne].
  - rewrite lookup_insert_eq. csimpl.
    destruct (arp_entries h platform a lines) as [|m l] eqn:Hl; [done|].
    rewrite !last_cons. by destruct (last l).
  - by rewrite lookup_insert_ne.
Qed.

Lemma arp_parse_last_line (h : host) (platform arpOutput a : string) :
  arp_parse h platform arpOutput !! a
  = last (arp_entries h platform a (JS.split "010" arpOutput)).
Proof.
  unfold arp_parse. rewrite arp_fold_lookup, lookup_empty.
  by destruct (last _).
Qed.

(** X5. When the neighbour command succeeds on a platform with a parser,
    the table maps an address to the lower-cased MAC of the last line of
    the output that matches with that address; an address that no line
    names is not in the table. *)
Theorem getArpTable_last_line_wins (h : host) (log : list string) (arpOutput : string) :
  arp_supported h = true →
  child_process_execSync h "arp -a" = inl arpOutput →
  ∃ table,
    getArpTable h log = (Ok table, log ++ ["arp -a"]) ∧
    ∀ a, table !! a
         = last (arp_entries h (os_platform h) a (JS.split "010" arpOutput)).
Proof.
  intros Hsup Hout. exists (arp_table h). split.
  - rewrite getArpTable_run. unfold arp_commands. by rewrite Hsup.
  - intros a. unfold arp_table. rewrite Hsup, Hout. apply arp_parse_last_line.
Qed.

Lemma getArpTable_last_line_wins_witness :
  let out := "192.168.1.50 ether 34:EA:34:aa:bb:cc C eth0" +:+ String "010"
             "192.168.1.50 ether 70:55:82:00:00:01 C eth0" in
  let h := {|
    os_networkInterfaces := [];
    os_platform := "linux";
    child_process_execSync := λ _, inl out;
    net_socket_events := λ _ _ _, [];
    regexp_match := λ _ line,
      if String.eqb line "192.168.1.50 ether 34:EA:34:aa:bb:cc C eth0"
      then Some ("192.168.1.50", "34:EA:34:aa:bb:cc")
      else if String.eqb line "192.168.1.50 ether 70:55:82:00:00:01 C eth0"
      then Some ("192.168.1.50", "70:55:82:00:00:01")
      else None |} in
  ∃ table,
    getArpTable h [] = (Ok table, ["arp -a"]) ∧
    table !! "192.168.1.50" = Some "70:55:82:00:00:01" ∧
    table !! "192.168.1.51" = None.
Proof.
  intros out h.
  destruct (getArpTable_last_line_wins h [] out eq_refl eq_refl) as (table & Hrun & Hlook).
  exists table. split; [exact Hrun|]. split.
  - rewrite (Hlook "192.168.1.50"). reflexivity.
  - rewrite (Hlook "192.168.1.51"). reflexivity.
Defined.

(** ** PortProbe: the first event decides *)

Lemma scanPort_run_destroyed events :
  connects events = true ∨ events = [] → destroyed (scanPort_run events) = true.
Proof.
  unfold scanPort_run. intros [Hc| ->]; [|done].
  destruct events as [|[] events]; simpl in *; try done.
  assert (∀ s, destroyed s = true → timer_armed s = false →
               let s' := fold_left deliver events s in
               destroyed s' = true ∧ timer_armed s' = false) as Hkeep.
  { clear. induction events as [|e events IH]; intros s Hd Ht; simpl; [done|].
    apply IH; unfold deliver; by rewrite Hd. }
  edestruct Hkeep as [Hd Ht]; [| |rewrite Ht, Hd]; done.
Qed.

(** X6. [scanPort] answers true exactly when the first thing the socket
    reports before the deadline is [connect]; whatever the socket reports
    after that does not change the answer.  When the answer is true, and
    when the deadline passes in silence, the socket has been destroyed. *)
Theorem scanPort_first_event_decides (h : host) (a : string) (port timeout : Z)
    (log : list string) :
  let events := net_socket_events h a port timeout in
  (scanPort h a port timeout log = (Ok true, log) ↔ ∃ rest, events = SockConnect :: rest) ∧
  (scanPort h a port timeout log = (Ok false, log) ↔
   events = [] ∨ ∃ rest, events = SockError :: rest) ∧
  (connects events = true ∨ events = [] → destroyed (scanPort_run events) = true).
Proof.
  intros events. rewrite scanPort_result. fold events.
  split; [|split; [|apply scanPort_run_destroyed]].
  - destruct events as [|[] rest]; simpl; split; try done; eauto; by intros [? [=]].
  - destruct events as [|[] rest]; simpl; split; try done; eauto.
    + by intros [[=]|[? [=]]].
Qed.

Lemma scanPort_first_event_decides_witness :
  let h := sample_host "192.168.1.17" (inr "ENOENT") in
  (connects (net_socket_events h "192.168.1.50" 6668 500) = true ∨
   net_socket_events h "192.168.1.50" 6668 500 = []) ∧
  scanPort h "192.168.1.50" 6668 500 [] = (Ok true, []) ∧
  destroyed (scanPort_run (net_socket_events h "192.168.1.50" 6668 500)) = true.
Proof.
  intros h.
  destruct (scanPort_first_event_decides h "192.168.1.50" 6668 500 [])
    as (Htrue & _ & Hdestroyed).
  split; [left; reflexivity|]. split.
  - apply Htrue. exists []. reflexivity.
  - apply Hdestroyed. left. reflexivity.
Defined.

(** ** DeviceScanner: the list of devices *)

Lemma partition_Permutation {A} (p : A → bool) (l : list A) :
  List.filter p l ++ List.filter (λ x, negb (p x)) l ≡ₚ l.
Proof.
  induction l as [|x l IH]; simpl; [done|].
  destruct (p x); simpl.
  - by rewrite IH.
  - by rewrite <- Permutation_middle, IH.
Qed.

Lemma NoDup_List_filter {A} (p : A → bool) (l : list A) :
  NoDup l → NoDup (List.filter p l).
Proof. intros Hl. eapply sublist_NoDup; [exact Hl|apply sublist_List_filter]. Qed.

Lemma List_filter_none {A} (p : A → bool) (l : list A) :
  (∀ x, In x l → p x = false) → List.filter p l = [].
Proof.
  induction l as [|x l IH]; intros Hp; simpl; [done|].
  rewrite (Hp x) by (by left). apply IH. intros y Hy. apply Hp. by right.
Qed.

(** X7. No two devices of a scan have the same address, and a scan returns
    at most 254 devices. *)
Theorem discoverDevices_distinct_addresses (h : host) (log : list string) :
  ∃ devices log',
    discoverDevices h log = (Ok devices, log') ∧
    NoDup (ip <$> devices) ∧
    (length devices ≤ 254)%nat.
Proof.
  eexists _, _. split; [apply discoverDevices_run|].
  rewrite Array_sort_byLikelihood, partition_Permutation.
  assert (length (omap (probe h (arp_table h)) (scan_targets h))
          = length (List.filter (kept h) (scan_targets h))) as ->.
  { by rewrite <- (fmap_ip_omap_probe h (arp_table h)), length_fmap. }
  rewrite fmap_ip_omap_probe. split.
  - apply NoDup_List_filter, host_addresses_NoDup.
  - etrans; [apply filter_length_le|]. unfold scan_targets.
    by rewrite host_addresses_length.
Qed.

(** X8. The record of a device is decided by its address: its ports are
    the candidate ports that accept a connection, all of them, in the
    order 6668, 6667, 443, and its MAC is the entry of that address in the
    table of [getArpTable], undefined when there is none. *)
Theorem device_record_of_address (h : host) (log : list string) :
  ∃ table devices log',
    (getArpTable h log).1 = Ok table ∧
    discoverDevices h log = (Ok devices, log') ∧
    Forall (λ d,
      ports d = List.filter
                  (λ p, match (scanPort h (ip d) p 500 []).1 with
                        | Ok open => open
                        | _ => false
                        end)
                  TUYA_PORTS ∧
      mac d = table !! ip d)
      devices.
Proof.
  destruct (discoverDevices_elem h log) as (devices & log' & Hrun & Hdev).
  exists (arp_table h), devices, log'. split; [by rewrite getArpTable_run|].
  split; [done|].
  apply Forall_forall. intros d (a & _ & _ & ->)%Hdev.
  cbn [ports mac ip device_at]. split; [|done].
  unfold open_ports. apply filter_ext. intros p.
  by rewrite scanPort_result.
Qed.

Lemma findRoboVacs_found h log :
  let found := omap (probe h (arp_table h)) (scan_targets h) in
  findRoboVacs h log
  = (Ok (List.filter isLikelyRoboVac found),
     log ++ arp_commands h ++ map (pingCommand h) (scan_targets h)).
Proof.
  intros found.
  destruct (findRoboVacs_run h log) as (devices & log' & Hrun & Hfind).
  rewrite Hfind. clear Hfind.
  pose proof (discoverDevices_run h log) as Hrun'.
  rewrite Hrun' in Hrun. clear Hrun'. fold found in Hrun.
  assert (devices = Array_sort byLikelihood found ∧
          log' = log ++ arp_commands h ++ map (pingCommand h) (scan_targets h))
    as [-> ->] by (by inversion Hrun).
  clear Hrun. do 2 f_equal.
  rewrite Array_sort_byLikelihood, List.filter_app.
  rewrite (List_filter_none isLikelyRoboVac
             (List.filter (λ d, negb (isLikelyRoboVac d)) found)).
  - rewrite app_nil_r. apply forallb_filter_id, forallb_forall.
    intros d Hd. by apply filter_In in Hd as [_ ?].
  - intros d Hd. apply filter_In in Hd as [_ Hd]. by destruct (isLikelyRoboVac d).
Qed.

(** X9. The candidates of [findRoboVacs] are the leading entries of the
    list of [discoverDevices]: the list is the candidates followed by
    devices without the flag.  Every candidate has the vendor [Anker/Eufy],
    a MAC, and port 6668 among its ports. *)
Theorem findRoboVacs_leads_discoverDevices (h : host) (log : list string) :
  ∃ candidates others log',
    findRoboVacs h log = (Ok candidates, log') ∧
    discoverDevices h log = (Ok (candidates ++ others), log') ∧
    Forall (λ d, isLikelyRoboVac d = false) others ∧
    Forall (λ d,
      isLikelyRoboVac d = true ∧ vendor d = Some "Anker/Eufy" ∧
      is_Some (mac d) ∧ 6668 ∈ ports d)
      candidates.
Proof.
  eexists _, (List.filter (λ d, negb (isLikelyRoboVac d))
                (omap (probe h (arp_table h)) (scan_targets h))), _.
  split; [apply findRoboVacs_found|].
  split; [by rewrite discoverDevices_run, Array_sort_byLikelihood|]. split.
  - apply Forall_forall. intros d [_ Hd]%elem_of_List_filter.
    by destruct (isLikelyRoboVac d).
  - apply Forall_forall. intros d [Hd Hflag]%elem_of_List_filter.
    apply elem_of_omap_probe in Hd as (a & _ & _ & ->).
    cbn [isLikelyRoboVac vendor mac ports device_at] in *.
    apply andb_true_iff in Hflag as [Hanker Hport].
    rewrite Hanker. split; [done|]. split; [done|].
    split; [|by apply includes_elem_of].
    apply is_anker_spec in Hanker as (m & -> & _). by eexists.
Qed.

Lemma with_sockets_scan h events :
  arp_table (with_sockets h events) = arp_table h ∧
  arp_commands (with_sockets h events) = arp_commands h ∧
  scan_targets (with_sockets h events) = scan_targets h ∧
  pingCommand (with_sockets h events) = pingCommand h ∧
  answers (with_sockets h events) = answers h.
Proof.
  split; [reflexivity|]. split; [reflexivity|]. split; [reflexivity|].
  split; reflexivity.
Qed.

Lemma omap_ext_all {A B} (f g : A → option B) (l : list A) :
  (∀ x, f x = g x) → omap f l = omap g l.
Proof. intros Hfg. induction l as [|x l IH]; csimpl; [done|]. by rewrite Hfg, IH. Qed.

(** X10. The ports of an address that does not answer the ping play no
    part in a scan: two hosts that differ only in the sockets of such
    addresses give the same result. *)
Theorem discoverDevices_ignores_silent_hosts (h : host)
    (events : string → Z → Z → list socket_event) (log : list string) :
  (∀ a port, (pingHost h a []).1 = Ok true →
             events a port 500 = net_socket_events h a port 500) →
  discoverDevices (with_sockets h events) log = discoverDevices h log.
Proof.
  intros Hsame.
  rewrite (discoverDevices_run (with_sockets h events)), (discoverDevices_run h).
  destruct (with_sockets_scan h events) as (-> & -> & -> & -> & Hans).
  rewrite (omap_ext_all (probe (with_sockets h events) (arp_table h))
             (probe h (arp_table h))); [reflexivity|].
  intros a. unfold probe, kept. rewrite Hans.
  destruct (answers h a) eqn:Ha; [|reflexivity].
  assert (open_ports (with_sockets h events) a = open_ports h a) as Hopen.
  { unfold open_ports, port_open. apply filter_ext. intros port.
    cbn [with_sockets net_socket_events]. rewrite Hsame; [reflexivity|].
    rewrite pingHost_answers. by rewrite Ha. }
  unfold device_at. rewrite Hopen. reflexivity.
Qed.

Lemma discoverDevices_ignores_silent_hosts_witness :
  let h := sample_host "192.168.1.17" (inl sample_arp) in
  let events := λ a port timeout,
    if String.eqb a "192.168.1.99" then [SockConnect]
    else net_socket_events h a port timeout in
  discoverDevices (with_sockets h events) [] = discoverDevices h [].
Proof.
  intros h events. apply discoverDevices_ignores_silent_hosts.
  intros a port Hping. unfold events.
  destruct (String.eqb_spec a "192.168.1.99") as [->|]; [|reflexivity].
  discriminate Hping.
Defined.

(** ** DeviceScanner: the batches *)

Lemma batch_offsets_bound i n :
  Forall (λ k, i ≤ k < n)%nat (batch_offsets i n).
Proof.
  remember (n - i)%nat as m eqn:Hm.
  revert i Hm. induction (lt_wf m) as [m _ IH]. intros i ->.
  simp batch_offsets. destruct (decide (i < n)%nat) as [Hlt|Hge]; simpl; [|done].
  constructor; [lia|].
  eapply Forall_impl.
  - apply (IH (n - (i + batchSize))%nat (ltac:(unfold batchSize; lia)) _ eq_refl).
  - intros k Hk. simpl in Hk. lia.
Qed.

(** X11. Whatever the length of the address list, no batch is empty and no
    batch has more than twenty addresses; the 254 addresses of a scan make
    thirteen batches. *)
Theorem batches_bounded (ips : list string) :
  Forall (λ batch, 0 < length batch ≤ batchSize)%nat
         (batches ips (batch_offsets 0 (length ips))) ∧
  (length ips = 254%nat →
   length (batches ips (batch_offsets 0 (length ips))) = 13%nat).
Proof.
  split.
  - unfold batches. apply Forall_fmap.
    eapply Forall_impl; [apply batch_offsets_bound|].
    intros i Hi. simpl in *. unfold JS.slice.
    rewrite length_take, length_drop. unfold batchSize in *. lia.
  - intros ->. unfold batches. rewrite length_map. by vm_compute.
Qed.

Lemma batches_bounded_witness :
  let ips := host_addresses ["192"; "168"; "1"; "0"] in
  length ips = 254%nat ∧
  length (batches ips (batch_offsets 0 (length ips))) = 13%nat.
Proof.
  intros ips. split; [reflexivity|].
  apply (proj2 (batches_bounded ips)). reflexivity.
Defined.

(** ** What a scan needs from the neighbour table *)

(** X12. With an empty neighbour table, [findRoboVacs] returns no
    candidate, whatever answers on the network. *)
Theorem findRoboVacs_needs_neighbor_table (h : host) (log : list string) :
  (getArpTable h log).1 = Ok ∅ →
  ∃ log', findRoboVacs h log = (Ok [], log').
Proof.
  rewrite getArpTable_run. simpl. intros [= Hempty].
  destruct (findRoboVacs_run h log) as (devices & log' & Hrun & Hfind).
  destruct (discoverDevices_elem h log) as (devices' & log'' & Hrun' & Hdev).
  rewrite Hrun in Hrun'. injection Hrun' as <- <-.
  exists log'. rewrite Hfind. do 2 f_equal. apply List_filter_none.
  intros d (a & _ & _ & ->)%list_elem_of_In%Hdev. simpl.
  by rewrite Hempty, lookup_empty.
Qed.

Lemma findRoboVacs_needs_neighbor_table_witness :
  let h := sample_host "192.168.1.17" (inr "ENOENT") in
  (getArpTable h []).1 = Ok ∅ ∧ (findRoboVacs h []).1 = Ok [].
Proof.
  intros h. split; [reflexivity|].
  destruct (findRoboVacs_needs_neighbor_table h [] eq_refl) as (log' & Hfind).
  rewrite Hfind. reflexivity.
Defined.

(** ** VendorMatcher: short addresses *)

(** X13. A string shorter than eight characters is never an Anker
    address. *)
Theorem isAnkerEufyDevice_short (mac : string) :
  (String.length mac < 8)%nat → isAnkerEufyDevice mac = false.
Proof.
  intros Hlen. apply not_true_is_false. intros Hm.
  apply isAnkerEufyDevice_spec in Hm.
  assert (String.length (JS.toLowerCase (JS.substring 0 8 mac)) < 8)%nat as Hshort.
  { rewrite toLowerCase_length. unfold JS.substring. simpl.
    clear Hm. revert Hlen. generalize 8%nat. intros n.
    revert n. induction mac as [|c mac IH]; intros [|n] Hlen; simpl in *; try lia.
    specialize (IH n). lia. }
  unfold ANKER_EUFY_OUIS in Hm.
  repeat (apply elem_of_cons in Hm as [Hm|Hm]; [rewrite Hm in Hshort; simpl in Hshort; lia|]).
  by apply not_elem_of_nil in Hm.
Qed.

Lemma isAnkerEufyDevice_short_witness :
  (String.length "34:ea:3" < 8)%nat ∧ isAnkerEufyDevice "34:ea:3" = false.
Proof.
  assert (String.length "34:ea:3" < 8)%nat as Hlen by (simpl; lia).
  split; [exact Hlen|]. exact (isAnkerEufyDevice_short "34:ea:3" Hlen).
Defined.

(** ** The subprocesses of a scan *)

(** X14. A scan starts at most 255 subprocesses and [findRoboVacs] starts
    the same ones: the neighbour command [arp -a] first, once, and only on
    darwin, linux and win32, and then one ping for each address in
    ascending order. *)
Theorem scan_subprocesses (h : host) (log : list string) :
  ∃ devices candidates,
    let trace := arp_commands h ++ map (pingCommand h) (scan_targets h) in
    discoverDevices h log = (Ok devices, log ++ trace) ∧
    findRoboVacs h log = (Ok candidates, log ++ trace) ∧
    arp_commands h = (if arp_supported h then ["arp -a"] else []) ∧
    (length trace ≤ 255)%nat.
Proof.
  eexists _, _. cbv zeta.
  split; [apply discoverDevices_run|]. split; [apply findRoboVacs_found|].
  split; [reflexivity|].
  rewrite length_app, length_map. unfold scan_targets.
  rewrite host_addresses_length. unfold arp_commands.
  destruct (arp_supported h); simpl; lia.
Qed.

(** * Properties of the server *)

(** ** [discoverBestRoboVacIP] *)

(** The choice that [discoverBestRoboVacIP] makes in a list of devices. *)
Lemma discoverBestRoboVacIP_run h log :
  let devices :=
    Array_sort byLikelihood (omap (probe h (arp_table h)) (scan_targets h)) in
  discoverBestRoboVacIP h log
  = (Ok match List.filter isLikelyRoboVac devices with
        | bestDevice :: _ => Some (ip bestDevice)
        | [] =>
            match List.filter (λ device, JS.includes (ports device) 6668) devices with
            | potentialDevice :: _ => Some (ip potentialDevice)
            | [] => None
            end
        end,
     log ++ arp_commands h ++ map (pingCommand h) (scan_targets h)).
Proof.
  intros devices. unfold discoverBestRoboVacIP, try_catch.
  rewrite (bind_Ok _ _ _ _ _ (discoverDevices_run h log)). fold devices.
  destruct devices as [|d devices']; [done|].
  cbn [length Nat.eqb].
  destruct (List.filter isLikelyRoboVac (d :: devices')); [|done].
  by destruct (List.filter _ (d :: devices')).
Qed.

Lemma List_filter_nil_inv {A} (p : A → bool) (l : list A) x :
  List.filter p l = [] → x ∈ l → p x = false.
Proof.
  intros Hnil Hx. destruct (p x) eqn:Hp; [|done].
  assert (x ∈ List.filter p l) as Hin by (by apply elem_of_List_filter).
  rewrite Hnil in Hin. by apply not_elem_of_nil in Hin.
Qed.

Lemma List_filter_head {A} (p : A → bool) (l : list A) x rest :
  List.filter p l = x :: rest → x ∈ l ∧ p x = true.
Proof.
  intros Hf. apply elem_of_List_filter. rewrite Hf. left.
Qed.

(** The first likely device of a sorted list is its first device. *)
Lemma sorted_head_likely (found : list NetworkDevice) d rest :
  List.filter isLikelyRoboVac (Array_sort byLikelihood found) = d :: rest →
  head (Array_sort byLikelihood found) = Some d.
Proof.
  rewrite Array_sort_byLikelihood, List.filter_app.
  rewrite (List_filter_none isLikelyRoboVac
             (List.filter (λ d, negb (isLikelyRoboVac d)) found)); last first.
  { intros x Hx. apply filter_In in Hx as [_ Hx]. by destruct (isLikelyRoboVac x). }
  rewrite app_nil_r, forallb_filter_id; last first.
  { apply forallb_forall. intros x Hx. by apply filter_In in Hx as [_ ?]. }
  by intros ->.
Qed.

Lemma discoverBestRoboVacIP_devices h log :
  ∃ devices log',
    discoverDevices h log = (Ok devices, log') ∧
    discoverBestRoboVacIP h log
    = (Ok match List.filter isLikelyRoboVac devices with
          | bestDevice :: _ => Some (ip bestDevice)
          | [] =>
              match List.filter (λ device, JS.includes (ports device) 6668) devices with
              | potentialDevice :: _ => Some (ip potentialDevice)
              | [] => None
              end
          end, log') ∧
    (∀ d, d ∈ devices → isLikelyRoboVac d = true → 6668 ∈ ports d) ∧
    (∀ d, d ∈ devices → ip d ∈ scan_targets h) ∧
    (∀ d rest, List.filter isLikelyRoboVac devices = d :: rest → head devices = Some d).
Proof.
  eexists _, _. split; [apply discoverDevices_run|].
  split; [apply discoverBestRoboVacIP_run|].
  split; [|split; [|apply sorted_head_likely]].
  - intros d. rewrite Array_sort_byLikelihood, elem_of_partition, elem_of_omap_probe.
    intros (a & _ & _ & ->). cbn [isLikelyRoboVac ports device_at].
    intros [_ ?]%andb_true_iff. by apply includes_elem_of.
  - intros d. rewrite Array_sort_byLikelihood, elem_of_partition, elem_of_omap_probe.
    by intros (a & ? & _ & ->).
Qed.

(** X15. [discoverBestRoboVacIP] never throws.  It answers with no address
    exactly when no device of the scan has port 6668 open; an address it
    answers with is the address of a device of the scan with port 6668
    open; and when some device has the flag, the answer is the address of
    the first device of the list. *)
Theorem discoverBestRoboVacIP_choice (h : host) (log : list string) :
  ∃ devices best log',
    discoverDevices h log = (Ok devices, log') ∧
    discoverBestRoboVacIP h log = (Ok best, log') ∧
    (best = None ↔ Forall (λ d, 6668 ∉ ports d) devices) ∧
    (∀ a, best = Some a → ∃ d, d ∈ devices ∧ ip d = a ∧ 6668 ∈ ports d) ∧
    (Exists (λ d, isLikelyRoboVac d = true) devices → best = ip <$> head devices).
Proof.
  destruct (discoverBestRoboVacIP_devices h log)
    as (devices & log' & Hrun & Hbest & Hflag & _ & Hhead).
  eexists devices, _, log'. split; [exact Hrun|]. split; [exact Hbest|].
  clear Hrun Hbest.
  destruct (List.filter isLikelyRoboVac devices) as [|d0 likely'] eqn:Hlikely.
  - assert (¬ Exists (λ d, isLikelyRoboVac d = true) devices) as Hnone.
    { intros (d & Hd & Hf)%Exists_exists.
      by rewrite (List_filter_nil_inv _ _ d Hlikely Hd) in Hf. }
    destruct (List.filter (λ device, JS.includes (ports device) 6668) devices)
      as [|p0 ports'] eqn:Hports.
    + cbv beta iota. split; [|split; [by intros a [=]|intros He; destruct (Hnone He)]].
      split; [|done]. intros _.
      apply Forall_forall. intros d Hd Hp.
      apply includes_elem_of in Hp.
      by rewrite (List_filter_nil_inv _ _ d Hports Hd) in Hp.
    + apply List_filter_head in Hports as [Hp0 Hport]. apply includes_elem_of in Hport.
      cbv beta iota. split; [|split; [|intros He; destruct (Hnone He)]].
      * split; [done|]. intros Hall. rewrite Forall_forall in Hall.
        by destruct (Hall p0 Hp0).
      * intros a [= <-]. eauto.
  - specialize (Hhead d0 likely' eq_refl).
    apply List_filter_head in Hlikely as [Hd0 Hf].
    cbv beta iota. split; [|split].
    + split; [done|]. intros Hall. rewrite Forall_forall in Hall.
      destruct (Hall d0 Hd0). by apply Hflag.
    + intros a [= <-]. exists d0. eauto.
    + intros _. by rewrite Hhead.
Qed.

(** ** Running a request *)

Lemma Srv_bind_Ok {A B} (m : Srv A) (k : A → Srv B) s a s' :
  m s = (Ok a, s') → (m ≫= k) s = k a s'.
Proof. intros Hm. unfold mbind, Srv_bind. by rewrite Hm. Qed.

Lemma initializeRoboVac_run lib deviceId localKey a s :
  let config := config_of deviceId localKey a in
  let s1 := record_event s (New config) in
  let s2 := {| robovac := Some config;
               calls := calls s ++ [New config; Call config connect];
               execLog := execLog s |} in
  initializeRoboVac lib deviceId localKey a s
  = match RoboVac_new lib (calls s) config with
    | Some _ => (Ok false, s1)
    | None =>
        match RoboVac_call lib (calls s ++ [New config]) config connect with
        | Ok _ => (Ok true, s2)
        | Throw _ => (Ok false, s2)
        | Pending => (Pending, s2)
        end
    end.
Proof.
  intros config s1 s2.
  unfold initializeRoboVac, Srv_try, mbind, Srv_bind, RoboVac_construct,
    set_robovac, RoboVac_invoke.
  fold (config_of deviceId localKey a). fold config.
  destruct (RoboVac_new lib (calls s) config); [done|].
  cbn [calls robovac execLog]. unfold s2. rewrite <- app_assoc.
  by destruct (RoboVac_call lib (calls s ++ [New config]) config connect).
Qed.

(** X16. [initializeRoboVac] never throws.  It hands the library the given
    address, or [192.168.1.100] when none is given; it answers true exactly
    when the constructor returns and [connect] resolves.  Once the
    constructor has returned, [this.robovac] is the new object, also when
    [connect] then fails; when the constructor throws, [this.robovac] is
    what it was.  No subprocess is started. *)
Theorem initializeRoboVac_outcome (lib : library) (deviceId localKey a : option string)
    (s : server) :
  let config := config_of deviceId localKey a in
  ∃ res s',
    initializeRoboVac lib deviceId localKey a s = (res, s') ∧
    (∀ e, res ≠ Throw e) ∧
    config_ip config ≠ "" ∧
    execLog s' = execLog s ∧
    (res = Ok true ↔
     RoboVac_new lib (calls s) config = None ∧
     ∃ v, RoboVac_call lib (calls s ++ [New config]) config connect = Ok v) ∧
    (RoboVac_new lib (calls s) config = None →
     robovac s' = Some config ∧
     calls s' = calls s ++ [New config; Call config connect]) ∧
    (∀ e, RoboVac_new lib (calls s) config = Some e →
          res = Ok false ∧ robovac s' = robovac s ∧ calls s' = calls s ++ [New config]).
Proof.
  intros config.
  assert (config_ip config ≠ "") as Hip.
  { unfold config, config_of. simpl. by destruct a as [[|c a]|]. }
  destruct (initializeRoboVac lib deviceId localKey a s) as [res s'] eqn:Hrun.
  exists res, s'. split; [done|].
  rewrite initializeRoboVac_run in Hrun. fold config in Hrun.
  destruct (RoboVac_new lib (calls s) config) as [e|].
  - injection Hrun as <- <-.
    repeat split; try done; try (by intros [[=] _]); by intros [= <-].
  - destruct (RoboVac_call lib (calls s ++ [New config]) config connect) as [v|e|];
      injection Hrun as <- <-;
      repeat split; try done; try (by exists v); by intros [_ [? [=]]].
Qed.

Lemma initializeRoboVac_outcome_witness :
  let s := fresh_server in
  let config := config_of (Some "device-1") (Some "key-1") None in
  RoboVac_new sample_library (calls s) config = None ∧
  ∃ s',
    initializeRoboVac sample_library (Some "device-1") (Some "key-1") None s
    = (Ok false, s') ∧
    robovac s' = Some config ∧ config_ip config = "192.168.1.100".
Proof.
  intros s config. split; [reflexivity|].
  destruct (initializeRoboVac_outcome sample_library (Some "device-1") (Some "key-1")
              None s) as (res & s' & Hrun & _ & _ & _ & _ & Hset & _).
  exists s'. destruct (Hset eq_refl) as [Hrobovac _].
  split; [|split; [exact Hrobovac|reflexivity]].
  rewrite Hrun. f_equal.
  rewrite initializeRoboVac_run in Hrun. by injection Hrun as <- _.
Defined.

(** ** The tools that drive the device *)

Lemma callTool_drive h lib name args method :
  tool_method name args = Some method →
  ∃ answer,
    callTool h lib name args
    = Srv_try (drive lib method answer)
        (λ message, mret {| text := "Error: " +:+ message; isError := Some true |}).
Proof.
  unfold tool_method, callTool.
  repeat match goal with
  | |- context [String.eqb name ?lit] =>
      destruct (String.eqb_spec name lit) as [->|?];
      [cbn [String.eqb Ascii.eqb Bool.eqb]; intros H;
       first [discriminate H | injection H as <-; eexists; reflexivity]|]
  end.
  intros [=].
Qed.

Lemma drive_run lib method answer s :
  drive lib method answer s
  = match robovac s with
    | None =>
        (Throw "RoboVac not initialized. Please run robovac_auto_initialize or robovac_connect first.", s)
    | Some r =>
        match RoboVac_call lib (calls s) r method with
        | Ok value => (Ok {| text := answer value; isError := None |},
                       record_event s (Call r method))
        | Throw e => (Throw e, record_event s (Call r method))
        | Pending => (Pending, record_event s (Call r method))
        end
    end.
Proof.
  unfold drive, mbind, Srv_bind, ensureRoboVacInitialized, RoboVac_invoke, record_event.
  destruct (robovac s) as [r|] eqn:Hr; [|done]. rewrite Hr.
  by destruct (RoboVac_call lib (calls s) r method).
Qed.

(** X17. Before any [RoboVac] has been constructed, each of the seventeen
    tools that drive the device answers with the error that asks to
    connect first, and leaves the server as it was: no call reaches the
    library and no subprocess is started. *)
Theorem drive_tools_need_robovac (h : host) (lib : library) (name : string)
    (args : ToolArguments) (method : RoboVacMethod) (s : server) :
  tool_method name args = Some method →
  robovac s = None →
  callTool h lib name args s
  = (Ok {| text := "Error: RoboVac not initialized. Please run robovac_auto_initialize or robovac_connect first.";
           isError := Some true |}, s).
Proof.
  intros Hm Hnone. apply (callTool_drive h lib) in Hm as (answer & ->).
  unfold Srv_try. by rewrite drive_run, Hnone.
Qed.

Lemma drive_tools_need_robovac_witness :
  callTool (sample_host "192.168.1.17" (inr "ENOENT")) sample_library
    "robovac_get_battery" (sample_arguments None) fresh_server
  = (Ok {| text := "Error: RoboVac not initialized. Please run robovac_auto_initialize or robovac_connect first.";
           isError := Some true |}, fresh_server).
Proof.
  apply (drive_tools_need_robovac _ _ _ _ getBatteyLevel); reflexivity.
Defined.

(** X18. With a [RoboVac] in place, a tool that drives the device makes
    exactly one call to the library, of the method of that tool on that
    object, and changes nothing else.  When the call resolves the answer
    has no [isError]; when it throws, the answer is the message behind
    [Error: ] with [isError] true; the request itself never throws. *)
Theorem drive_tool_single_call (h : host) (lib : library) (name : string)
    (args : ToolArguments) (method : RoboVacMethod) (r : RoboVacConfig) (s : server) :
  tool_method name args = Some method →
  robovac s = Some r →
  ∃ res,
    callTool h lib name args s = (res, record_event s (Call r method)) ∧
    match RoboVac_call lib (calls s) r method with
    | Ok _ => ∃ t, res = Ok {| text := t; isError := None |}
    | Throw message =>
        res = Ok {| text := "Error: " +:+ message; isError := Some true |}
    | Pending => res = Pending
    end.
Proof.
  intros Hm Hr. apply (callTool_drive h lib) in Hm as (answer & ->).
  unfold Srv_try. rewrite drive_run, Hr.
  destruct (RoboVac_call lib (calls s) r method) as [v|e|]; eexists; split; eauto.
Qed.

Lemma drive_tool_single_call_witness :
  let r := config_of (Some "device-1") (Some "key-1") (Some "192.168.1.50") in
  let s := {| robovac := Some r; calls := [New r; Call r connect]; execLog := [] |} in
  ∃ res,
    callTool (sample_host "192.168.1.17" (inr "ENOENT")) sample_library
      "robovac_stop_cleaning" (sample_arguments None) s
    = (res, record_event s (Call r pause)) ∧
    ∃ t, res = Ok {| text := t; isError := None |}.
Proof.
  intros r s.
  destruct (drive_tool_single_call (sample_host "192.168.1.17" (inr "ENOENT"))
              sample_library "robovac_stop_cleaning" (sample_arguments None)
              pause r s eq_refl eq_refl) as (res & Hrun & Hres).
  exists res. split; [exact Hrun|exact Hres].
Defined.

(** X19. A name that is none of the twenty listed tools is answered with
    [Error: Unknown tool: ] and the name, with [isError] true, and the
    server is left as it was. *)
Theorem unknown_tool (h : host) (lib : library) (name : string)
    (args : ToolArguments) (s : server) :
  name ∉ listedTools →
  callTool h lib name args s
  = (Ok {| text := "Error: Unknown tool: " +:+ name; isError := Some true |}, s).
Proof.
  intros Hnot. unfold callTool.
  repeat match goal with
  | |- context [String.eqb name ?lit] =>
      destruct (String.eqb_spec name lit) as [->|?];
      [exfalso; apply Hnot, list_elem_of_In; unfold listedTools; simpl; tauto|]
  end.
  reflexivity.
Qed.

Lemma unknown_tool_witness :
  ("robovac_scan_network" ∉ listedTools) ∧
  callTool (sample_host "192.168.1.17" (inr "ENOENT")) sample_library
    "robovac_scan_network" (sample_arguments None) fresh_server
  = (Ok {| text := "Error: Unknown tool: robovac_scan_network"; isError := Some true |},
     fresh_server).
Proof.
  assert ("robovac_scan_network" ∉ listedTools) as Hnot.
  { unfold listedTools. intros Hin.
    repeat (apply elem_of_cons in Hin as [Hin|Hin]; [discriminate Hin|]).
    by apply not_elem_of_nil in Hin. }
  split; [exact Hnot|]. exact (unknown_tool _ _ _ _ _ Hnot).
Defined.

(** ** The tools that connect *)

Lemma initializeRoboVac_connected lib deviceId localKey a s v :
  let config := config_of deviceId localKey a in
  RoboVac_new lib (calls s) config = None →
  RoboVac_call lib (calls s ++ [New config]) config connect = Ok v →
  initializeRoboVac lib deviceId localKey a s
  = (Ok true, {| robovac := Some config;
                 calls := calls s ++ [New config; Call config connect];
                 execLog := execLog s |}).
Proof.
  intros config Hnew Hcall. rewrite initializeRoboVac_run. fold config.
  by rewrite Hnew, Hcall.
Qed.

(** X20. When the request names an address and the library connects to it,
    [robovac_connect] and [robovac_connect_discovered] answer with success
    for that address after one construction and one [connect]: no scan is
    run, no subprocess is started, and no other address is tried. *)
Theorem connect_at_given_address (h : host) (lib : library) (args : ToolArguments)
    (a : string) (s : server) (v : string) :
  let config := config_of (arg_deviceId args) (arg_localKey args) (Some a) in
  let s' := {| robovac := Some config;
               calls := calls s ++ [New config; Call config connect];
               execLog := execLog s |} in
  arg_ip args = Some a →
  a ≠ "" →
  RoboVac_new lib (calls s) config = None →
  RoboVac_call lib (calls s ++ [New config]) config connect = Ok v →
  callTool h lib "robovac_connect" args s
  = (Ok {| text := "RoboVac connected successfully at " +:+ a +:+ "!";
           isError := Some false |}, s') ∧
  callTool h lib "robovac_connect_discovered" args s
  = (Ok {| text := "Successfully connected to RoboVac at " +:+ a +:+ "!";
           isError := Some false |}, s').
Proof.
  intros config s' Hip Ha Hnew Hcall.
  assert (JS.truthy (Some a) = true) as Htruthy by (by destruct a).
  pose proof (initializeRoboVac_connected lib _ _ (Some a) s v Hnew Hcall) as Hinit.
  fold config in Hinit. fold s' in Hinit.
  split.
  - unfold callTool, Srv_try. cbn [String.eqb Ascii.eqb Bool.eqb].
    unfold robovac_connect. rewrite Hip, Htruthy.
    rewrite (Srv_bind_Ok _ _ _ _ _ Hinit). reflexivity.
  - unfold callTool, Srv_try. cbn [String.eqb Ascii.eqb Bool.eqb].
    unfold robovac_connect_discovered. rewrite Hip, Htruthy.
    rewrite (Srv_bind_Ok _ _ _ _ _ Hinit). reflexivity.
Qed.

Lemma connect_at_given_address_witness :
  let args := sample_arguments (Some "192.168.1.50") in
  let config := config_of (Some "device-1") (Some "key-1") (Some "192.168.1.50") in
  callTool (sample_host "192.168.1.17" (inr "ENOENT")) sample_library
    "robovac_connect" args fresh_server
  = (Ok {| text := "RoboVac connected successfully at 192.168.1.50!";
           isError := Some false |},
     {| robovac := Some config; calls := [New config; Call config connect];
        execLog := [] |}).
Proof.
  intros args config.
  apply (connect_at_given_address (sample_host "192.168.1.17" (inr "ENOENT"))
           sample_library args "192.168.1.50" fresh_server "");
    [reflexivity|discriminate|reflexivity|reflexivity].
Defined.

Lemma lift_run {A} (m : M A) s r log' :
  m (execLog s) = (r, log') →
  lift m s = (r, {| robovac := robovac s; calls := calls s; execLog := log' |}).
Proof. intros Hm. unfold lift. by rewrite Hm. Qed.

(** X21. When the request names no address and the scan offers none,
    [robovac_connect_discovered] gives up without a call to the library,
    while [robovac_connect] makes one attempt, at [192.168.1.100], and
    reports what that attempt gave. *)
Theorem connect_without_address (h : host) (lib : library) (args : ToolArguments)
    (s : server) (log' : list string) :
  let s1 := {| robovac := robovac s; calls := calls s; execLog := log' |} in
  JS.truthy (arg_ip args) = false →
  discoverBestRoboVacIP h (execLog s) = (Ok None, log') →
  callTool h lib "robovac_connect_discovered" args s
  = (Ok {| text := "Failed to connect to device.  Check your device ID and local key, and ensure the RoboVac is on the same network.";
           isError := Some true |}, s1) ∧
  ∃ res s',
    initializeRoboVac lib (arg_deviceId args) (arg_localKey args)
      (Some "192.168.1.100") s1 = (res, s') ∧
    callTool h lib "robovac_connect" args s
    = (match res with
       | Ok true =>
           Ok {| text := "RoboVac connected successfully at 192.168.1.100!";
                 isError := Some false |}
       | Ok false =>
           Ok {| text := "Failed to connect to RoboVac. Tried 192.168.1.100 but connection failed. Check your device ID, local key, and network connection.";
                 isError := Some true |}
       | Throw message =>
           Ok {| text := "Error: " +:+ message; isError := Some true |}
       | Pending => Pending
       end, s').
Proof.
  intros s1 Hip Hscan. pose proof (lift_run _ s _ _ Hscan) as Hlift. fold s1 in Hlift.
  split.
  - unfold callTool, Srv_try. cbn [String.eqb Ascii.eqb Bool.eqb].
    unfold robovac_connect_discovered, mbind, Srv_bind, mret, Srv_ret.
    rewrite Hip. cbn [negb]. rewrite Hlift. cbn [JS.truthy fst snd negb].
    by rewrite Hip.
  - destruct (initializeRoboVac lib (arg_deviceId args) (arg_localKey args)
                (Some "192.168.1.100") s1) as [res s'] eqn:Hinit.
    exists res, s'. split; [done|].
    unfold callTool, Srv_try. cbn [String.eqb Ascii.eqb Bool.eqb].
    unfold robovac_connect, mbind, Srv_bind, mret, Srv_ret.
    rewrite Hip. cbn [negb]. rewrite Hlift. cbn [JS.truthy fst snd negb andb].
    rewrite Hip. cbn [negb andb]. rewrite Hinit. by destruct res as [[]| |].
Qed.

Lemma connect_without_address_witness :
  let h := sample_host "192.168.1.17" (inr "ENOENT") in
  let h' := with_sockets h (λ _ _ _, []) in
  let args := sample_arguments None in
  (JS.truthy (arg_ip args) = false ∧
   (discoverBestRoboVacIP h' []).1 = Ok None) ∧
  (callTool h' sample_library "robovac_connect_discovered" args fresh_server).1
  = Ok {| text := "Failed to connect to device.  Check your device ID and local key, and ensure the RoboVac is on the same network.";
          isError := Some true |} ∧
  (callTool h' sample_library "robovac_connect" args fresh_server).1
  = Ok {| text := "Failed to connect to RoboVac. Tried 192.168.1.100 but connection failed. Check your device ID, local key, and network connection.";
          isError := Some true |}.
Proof.
  intros h h' args.
  destruct (discoverBestRoboVacIP h' []) as [best log'] eqn:Hscan.
  assert (best = Ok None) as -> by (by vm_compute in Hscan; injection Hscan as <- _).
  split; [split; reflexivity|].
  destruct (connect_without_address h' sample_library args fresh_server log'
              eq_refl Hscan) as (Hdiscovered & res & s' & Hinit & Hconnect).
  split; [by rewrite Hdiscovered|].
  rewrite Hconnect. rewrite initializeRoboVac_run in Hinit.
  by injection Hinit as <- _.
Defined.

(** ** [robovac_auto_initialize] *)

Lemma initializeRoboVac_events lib deviceId localKey a s :
  ∃ res s' added,
    initializeRoboVac lib deviceId localKey a s = (res, s') ∧
    (∀ e, res ≠ Throw e) ∧
    calls s' = calls s ++ added ∧
    execLog s' = execLog s ∧
    Forall (λ e, event_config e = config_of deviceId localKey a) added.
Proof.
  rewrite initializeRoboVac_run.
  destruct (RoboVac_new lib (calls s) _) as [e|].
  - eexists _, _, [_]. repeat split; try done. by repeat constructor.
  - destruct (RoboVac_call lib _ _ connect) as [v|e|];
      eexists _, _, [_; _]; repeat split; try done; by repeat constructor.
Qed.

(** X22. [robovac_auto_initialize] never throws, and every object it asks
    the library for has no device id and no local key: the devices of a
    scan carry neither.  When the scan finds no device it answers
    [No RoboVac devices found.] without a call to the library. *)
Theorem auto_initialize_without_credentials (h : host) (lib : library)
    (args : ToolArguments) (s : server) :
  ∃ res s' added,
    callTool h lib "robovac_auto_initialize" args s = (res, s') ∧
    (∀ e, res ≠ Throw e) ∧
    calls s' = calls s ++ added ∧
    Forall (λ e, config_deviceId (event_config e) = None ∧
                 config_localKey (event_config e) = None) added ∧
    ((discoverDevices h (execLog s)).1 = Ok [] →
     res = Ok {| text := "No RoboVac devices found."; isError := Some true |} ∧
     added = []).
Proof.
  unfold callTool, Srv_try at 1. cbn [String.eqb Ascii.eqb Bool.eqb].
  unfold robovac_auto_initialize, Srv_try, mbind, Srv_bind, mret, Srv_ret, Srv_throw.
  rewrite (lift_run _ s _ _ (discoverDevices_run h (execLog s))).
  rewrite discoverDevices_run. cbn [fst].
  set (devices := Array_sort byLikelihood _).
  set (s1 := {| robovac := robovac s; calls := calls s; execLog := _ |}).
  destruct devices as [|d devices'] eqn:Hdevices.
  { eexists _, _, []. split; [reflexivity|]. split; [done|].
    split; [by rewrite app_nil_r|]. split; [constructor|done]. }
  cbn [length Nat.eqb].
  set (deviceIndex := match arg_deviceIndex args with
                      | Some n => if n =? 0 then 0 else n
                      | None => 0
                      end).
  destruct (Z.of_nat (S (length devices')) <=? deviceIndex).
  { eexists _, _, []. split; [reflexivity|]. split; [done|].
    split; [by rewrite app_nil_r|]. split; [constructor|by intros [=]]. }
  destruct (if 0 <=? deviceIndex then (d :: devices') !! Z.to_nat deviceIndex else None)
    as [selectedDevice|].
  2: { eexists _, _, []. split; [reflexivity|]. split; [done|].
       split; [by rewrite app_nil_r|]. split; [constructor|by intros [=]]. }
  destruct (initializeRoboVac_events lib None None (Some (ip selectedDevice)) s1)
    as (res1 & s2 & added1 & -> & Hres1 & Hcalls1 & Hlog1 & Hadded1).
  assert (∀ a added, Forall (λ e, event_config e = config_of None None a) added →
            Forall (λ e, config_deviceId (event_config e) = None ∧
                         config_localKey (event_config e) = None) added) as Hnone.
  { intros a added Hall. eapply Forall_impl; [exact Hall|]. by intros e ->. }
  destruct res1 as [[]|e|]; [| |by destruct (Hres1 e)|].
  - eexists _, _, added1. split; [reflexivity|]. split; [done|].
    split; [exact Hcalls1|]. split; [by eapply Hnone|by intros [=]].
  - cbn [negb].
    rewrite (lift_run _ s2 _ _ (discoverBestRoboVacIP_run h (execLog s2))).
    set (s3 := {| robovac := robovac s2; calls := calls s2; execLog := _ |}).
    match goal with |- context [JS.truthy ?b] => destruct (JS.truthy b) eqn:Hb end.
    + match goal with |- context [initializeRoboVac lib None None ?b s3] =>
        destruct (initializeRoboVac_events lib None None b s3)
          as (res2 & s4 & added2 & -> & Hres2 & Hcalls2 & Hlog2 & Hadded2)
      end.
      exists (match res2 with
              | Ok autoInitSuccess =>
                  Ok {| text :=
                          if autoInitSuccess
                          then "Successfully connected to " +:+ JS.tpl None +:+ "!"
                          else "Failed to connect to " +:+ JS.tpl None
                               +:+ ". Check network connection and ensure the device is online.";
                        isError := Some (negb autoInitSuccess) |}
              | Throw e => Throw e
              | Pending => Pending
              end), s4, (added1 ++ added2).
      split; [by destruct res2 as [[]|e|]; [| |destruct (Hres2 e)|]|].
      split; [by destruct res2 as [[]|e|]; [| |destruct (Hres2 e)|]|].
      split.
      { rewrite Hcalls2. change (calls s3) with (calls s2). rewrite Hcalls1.
        change (calls s1) with (calls s). by rewrite app_assoc. }
      split; [|by intros [=]].
      apply Forall_app. split; by eapply Hnone.
    + eexists _, _, added1. split; [reflexivity|]. split; [done|].
      split; [exact Hcalls1|]. split; [by eapply Hnone|by intros [=]].
  - eexists _, _, added1. split; [reflexivity|]. split; [done|].
    split; [exact Hcalls1|]. split; [by eapply Hnone|by intros [=]].
Qed.

Lemma auto_initialize_without_credentials_witness :
  let h := with_sockets (sample_host "192.168.1.17" (inr "ENOENT")) (λ _ _ _, []) in
  (discoverDevices h (execLog fresh_server)).1 = Ok [] ∧
  (callTool h sample_library "robovac_auto_initialize" (sample_arguments None)
     fresh_server).1
  = Ok {| text := "No RoboVac devices found."; isError := Some true |}.
Proof.
  intros h.
  assert ((discoverDevices h (execLog fresh_server)).1 = Ok []) as Hscan
    by (vm_compute; reflexivity).
  split; [exact Hscan|].
  destruct (auto_initialize_without_credentials h sample_library (sample_arguments None)
              fresh_server) as (res & s' & added & Hrun & _ & _ & _ & Hempty).
  rewrite Hrun. exact (proj1 (Hempty Hscan)).
Defined.
